(** * Logo resizer (scripts/img_resizer.py): model and verified properties

    The script decodes one source logo, writes seven padded PNG variants,
    a multi-size [favicon.ico] and a 1200x630 [og-image.png].

    The script itself is a straight-line procedure over two libraries:
    [pathlib] (paths, [mkdir], [exists], [resolve]) and Pillow ([Image.open],
    [thumbnail], [paste], [convert], [save]).  The development has three
    layers:

    - [Pillow]: the image operations the script calls, following Pillow's
      documented behaviour (size rules exactly; resampled and blended pixel
      values are left to the [Platform]);
    - [Os]: a file tree keyed by resolved paths, with the effects of the
      script as a state-and-exception monad;
    - [Resizer]: [resize_logo] and [main], statement by statement. *)

From Stdlib Require Import ZArith QArith Qround Qabs Lia.
From stdpp Require Import gmap strings list sorting pretty.

Local Open Scope string_scope.
Local Open Scope list_scope.
Local Open Scope Z_scope.

(** ** Python outcomes *)

(** The exceptions that the library calls of the script raise on the model. *)
Inductive Exn :=
  | FileExistsError
  | NotADirectoryError
  | IsADirectoryError
  | FileNotFoundError
  | UnidentifiedImageError
  | ZeroDivisionError
  | IndexError.

(** How a piece of Python code ends: it falls through with a value, calls
    [sys.exit(code)], or raises. *)
Inductive Result (A : Type) :=
  | Ok (a : A)
  | SysExit (code : Z)
  | Raised (e : Exn).
Arguments Ok {A} a.
Arguments SysExit {A} code.
Arguments Raised {A} e.

(** The status the interpreter hands to the shell: 0 after a normal end,
    the argument of [sys.exit], 1 after an uncaught exception. *)
Definition exit_status {A} (r : Result A) : Z :=
  match r with
  | Ok _ => 0
  | SysExit code => code
  | Raised _ => 1
  end.

Definition rbind {A B} (r : Result A) (k : A -> Result B) : Result B :=
  match r with
  | Ok a => k a
  | SysExit c => SysExit c
  | Raised e => Raised e
  end.

(** ** Images *)

(** A pixel is the tuple of its band values: (r, g, b, a) in mode RGBA,
    (r, g, b) in mode RGB. *)
Definition Pixel := list Z.

(** The part of a PIL [Image] the script observes. *)
Record Image := {
  mode : string;
  width : Z;
  height : Z;
  getpixel : Z -> Z -> Pixel;
}.

Definition im_size (im : Image) : Z * Z := (width im, height im).

(** A [pathlib] path as the script builds it: from a string, or by
    joining a name to a path. *)
Inductive PurePath :=
  | Path (s : string)                      (* Path(s) *)
  | Div (p : PurePath) (name : string).    (* p / name *)

(** What the libraries leave open for this development: path resolution
    (symbolic links, the working directory), the resampling filter and the
    blending arithmetic.  The script creates directories and regular files
    only, so the resolution of a path is the same throughout a run. *)
Class Platform := {
  (** [p.resolve()], as the string of the absolute path *)
  resolve : PurePath -> string;
  (** the proper ancestors of a resolved path, nearest first *)
  parents : string -> list string;
  (** [str(p)] *)
  path_str : PurePath -> string;
  (** pixel values of [im.resize(size, LANCZOS)] *)
  LANCZOS : Image -> Z * Z -> Z -> Z -> Pixel;
  (** [paste] with a mask: destination pixel, source pixel, mask pixel *)
  blend : Pixel -> Pixel -> Pixel -> Pixel;
  (** [convert] between modes other than RGB and RGBA *)
  convert_other : string -> string -> Pixel -> Pixel;
}.

Module Pillow.
Section Pillow.
Context {pf : Platform}.

(** [Image.new(mode, size, color)] *)
Definition new (m : string) (size : Z * Z) (color : Pixel) : Image :=
  {| mode := m; width := size.1; height := size.2;
     getpixel := fun _ _ => color |}.

(** [im.copy()]: images are values here, a copy is the image. *)
Definition copy (im : Image) : Image := im.

(** [round_aspect] of [Image.thumbnail]:
    [max(min(math.floor(number), math.ceil(number), key=key), 1)];
    Python's [min] keeps the first of two candidates with equal keys. *)
Definition round_aspect (number : Q) (key : Z -> Q) : Z :=
  let lo := Qfloor number in
  let hi := Qceiling number in
  Z.max (if Qle_bool (key lo) (key hi) then lo else hi) 1.

(** The size [Image.thumbnail(size)] gives an image of size [(w, h)];
    [None] stands for the early [return] that leaves the image alone.
    Pillow computes [aspect] in floating point; the model uses exact
    rationals.  The caller rules out [h = 0] and [y = 0], where Python
    raises. *)
Definition thumbnail_size (w h : Z) (size : Z * Z) : option (Z * Z) :=
  let '(x, y) := size in
  if (w <=? x) && (h <=? y) then None
  else
    let aspect := (inject_Z w / inject_Z h)%Q in
    if Qle_bool aspect (inject_Z x / inject_Z y)%Q then
      Some (round_aspect (inject_Z y * aspect)%Q
              (fun n => Qabs (aspect - inject_Z n / inject_Z y)%Q), y)
    else
      Some (x, round_aspect (inject_Z x / aspect)%Q
              (fun n => if n =? 0 then 0%Q
                        else Qabs (aspect - inject_Z x / inject_Z n)%Q)).

(** [im.resize(size, Image.Resampling.LANCZOS)] *)
Definition resize (im : Image) (size : Z * Z) : Image :=
  {| mode := mode im; width := size.1; height := size.2;
     getpixel := LANCZOS im size |}.

(** [im.thumbnail(size, Image.Resampling.LANCZOS)], returning the image
    it leaves in [im]. *)
Definition thumbnail (im : Image) (size : Z * Z) : Result Image :=
  if (width im <=? size.1) && (height im <=? size.2) then Ok im
  else if (height im =? 0) || (size.2 =? 0) then Raised ZeroDivisionError
  else
    match thumbnail_size (width im) (height im) size with
    | None => Ok im
    | Some final =>
        if decide (im_size im = final) then Ok im else Ok (resize im final)
    end.

(** [x <= i < x + w] and [y <= j < y + h] *)
Definition in_box (x y w h i j : Z) : bool :=
  (x <=? i) && (i <? x + w) && (y <=? j) && (j <? y + h).

(** [canvas.paste(im, (x, y))] and [canvas.paste(im, (x, y), mask)]:
    the pixels of the box at [(x, y)] with the size of [im] are replaced
    (blended through the mask when there is one), the others are kept. *)
Definition paste (canvas im : Image) (box : Z * Z) (mask : option Image)
  : Image :=
  let '(x, y) := box in
  {| mode := mode canvas; width := width canvas; height := height canvas;
     getpixel := fun i j =>
       if in_box x y (width im) (height im) i j then
         match mask with
         | None => getpixel im (i - x) (j - y)
         | Some m => blend (getpixel canvas i j) (getpixel im (i - x) (j - y))
                       (getpixel m (i - x) (j - y))
         end
       else getpixel canvas i j |}.

(** [im.convert(mode)]: RGBA to RGB drops the alpha band, RGB to RGBA
    adds an opaque one. *)
Definition convert_pixel (from to : string) (p : Pixel) : Pixel :=
  if String.eqb from to then p
  else if String.eqb from "RGBA" && String.eqb to "RGB" then take 3%nat p
  else if String.eqb from "RGB" && String.eqb to "RGBA" then (p ++ [255])%list
  else convert_other from to p.

Definition convert (im : Image) (m : string) : Image :=
  {| mode := m; width := width im; height := height im;
     getpixel := fun i j => convert_pixel (mode im) m (getpixel im i j) |}.

(** [sorted(set(sizes))] on pairs of integers. *)
Definition size_le (a b : Z * Z) : Prop :=
  a.1 < b.1 \/ (a.1 = b.1 /\ a.2 <= b.2).

Definition sorted_set (sizes : list (Z * Z)) : list (Z * Z) :=
  merge_sort size_le (remove_dups sizes).

(** The loop of the ICO writer ([IcoImagePlugin._save]) that chooses the
    embedded frames.  [width] and [height] are those of the image [save]
    is called on; a requested size larger than that image, or larger than
    256, is passed over.  A size that no provided image has is filled
    with a thumbnail of the last provided image. *)
Fixpoint ico_frames_for (provided_ims : list Image) (fallback : Image)
    (width height : Z) (sizes : list (Z * Z)) : Result (list Image) :=
  match sizes with
  | [] => Ok []
  | size :: rest =>
      if (width <? size.1) || (height <? size.2)
         || (256 <? size.1) || (256 <? size.2)
      then ico_frames_for provided_ims fallback width height rest
      else
        rbind
          match find (fun p => bool_decide (im_size p = size)) provided_ims with
          | Some provided_im => Ok provided_im
          | None => thumbnail (copy fallback) size
          end
          (fun frame =>
             rbind (ico_frames_for provided_ims fallback width height rest)
               (fun frames => Ok (frame :: frames)))
  end.

(** The frames of [im.save(fp, format="ICO", sizes=..., append_images=...)]. *)
Definition ico_frames (im : Image) (sizes : list (Z * Z))
    (append_images : list Image) : Result (list Image) :=
  let provided_ims := im :: append_images in
  ico_frames_for provided_ims (default im (last provided_ims))
    (width im) (height im) (sorted_set sizes).

End Pillow.
End Pillow.

(** ** The file tree and the effects of the script *)

(** What a file holds: an image file of some format with the images it
    embeds (one for PNG, several for ICO), or anything else. *)
Inductive FileData :=
  | ImageFile (format : string) (frames : list Image)
  | OtherFile.

Inductive Node :=
  | Dir
  | File (data : FileData).

(** The state a run acts on.  [nodes] is keyed by resolved paths; [saved]
    records the [save] calls that wrote a file, in order.  A library call
    raises where a directory stands for a file or a file for a directory;
    other failures of the operating system (permissions, a full disk) are
    not part of the model. *)
Record World := {
  nodes : gmap string Node;
  stdout : list string;
  saved : list (PurePath * FileData);
}.

Definition M (A : Type) : Type := World -> Result A * World.

#[global] Instance M_ret : MRet M := fun A a w => (Ok a, w).

#[global] Instance M_bind : MBind M := fun A B k m w =>
  match m w with
  | (Ok a, w') => k a w'
  | (SysExit c, w') => (SysExit c, w')
  | (Raised e, w') => (Raised e, w')
  end.

Module Os.
Section Os.
Context {pf : Platform}.

(** The state at the start of a run: the file tree as found, nothing
    printed, nothing saved. *)
Definition boot (fs : gmap string Node) : World :=
  {| nodes := fs; stdout := []; saved := [] |}.

Definition lift {A} (r : Result A) : M A := fun w => (r, w).

(** The paths given to the [save] calls that wrote, in order. *)
Definition saved_paths (w : World) : list PurePath := (saved w).*1.

(** [print(s)] *)
Definition print (s : string) : M unit := fun w =>
  (Ok tt, {| nodes := nodes w; stdout := stdout w ++ [s]; saved := saved w |}).

(** [sys.exit(code)] *)
Definition sys_exit {A} (code : Z) : M A := lift (SysExit code).

(** [l[i]] *)
Definition index {A} (l : list A) (i : nat) : M A :=
  match l !! i with
  | Some a => mret a
  | None => lift (Raised IndexError)
  end.

(** [p.exists()]: something, file or directory, is at the resolved path. *)
Definition exists_ (p : PurePath) : M bool := fun w =>
  (Ok (bool_decide (is_Some (nodes w !! resolve p))), w).

Definition is_file (n : option Node) : bool :=
  match n with
  | Some (File _) => true
  | _ => false
  end.

(** [p.mkdir(parents=True, exist_ok=True)]: the directory and its missing
    ancestors are created; a file in the way raises, and nothing is
    created then. *)
Definition mkdir (p : PurePath) : M unit := fun w =>
  let r := resolve p in
  if is_file (nodes w !! r) then (Raised FileExistsError, w)
  else if existsb (fun q => is_file (nodes w !! q)) (parents r)
  then (Raised NotADirectoryError, w)
  else (Ok tt,
        {| nodes := foldr (fun q m => <[q := Dir]> m) (nodes w) (r :: parents r);
           stdout := stdout w; saved := saved w |}).

(** Opening a file for writing and filling it. *)
Definition write_file (p : PurePath) (data : FileData) : M unit := fun w =>
  match nodes w !! resolve p with
  | Some Dir => (Raised IsADirectoryError, w)
  | _ =>
      (Ok tt,
       {| nodes := <[resolve p := File data]> (nodes w);
          stdout := stdout w;
          saved := saved w ++ [(p, data)] |})
  end.

(** The frame [Image.open] presents: the only one of a PNG, the largest
    (the first such) of an ICO. *)
Definition area (im : Image) : Z := width im * height im.

Fixpoint largest_frame (frames : list Image) : option Image :=
  match frames with
  | [] => None
  | im :: rest =>
      match largest_frame rest with
      | Some im' => if area im <? area im' then Some im' else Some im
      | None => Some im
      end
  end.

(** [Image.open(p)] *)
Definition Image_open (p : PurePath) : M Image := fun w =>
  match nodes w !! resolve p with
  | None => (Raised FileNotFoundError, w)
  | Some Dir => (Raised IsADirectoryError, w)
  | Some (File OtherFile) => (Raised UnidentifiedImageError, w)
  | Some (File (ImageFile _ frames)) =>
      match largest_frame frames with
      | Some im => (Ok im, w)
      | None => (Raised UnidentifiedImageError, w)
      end
  end.

(** [im.save(p, "PNG", optimize=True)] *)
Definition save_png (im : Image) (p : PurePath) : M unit :=
  write_file p (ImageFile "PNG" [im]).

(** [im.save(p, format="ICO", sizes=sizes, append_images=append_images)] *)
Definition save_ico (im : Image) (p : PurePath) (sizes : list (Z * Z))
    (append_images : list Image) : M unit :=
  frames ← lift (Pillow.ico_frames im sizes append_images);
  write_file p (ImageFile "ICO" frames).

(** [for a in l: body(a)] *)
Fixpoint for_each {A} (l : list A) (body : A -> M unit) : M unit :=
  match l with
  | [] => mret tt
  | a :: rest => body a;; for_each rest body
  end.

(** [[f(a) for a in l]] for an [f] that may raise. *)
Fixpoint collect {A B} (f : A -> Result B) (l : list A) : Result (list B) :=
  match l with
  | [] => Ok []
  | a :: rest => rbind (f a) (fun b => rbind (collect f rest) (fun bs => Ok (b :: bs)))
  end.

End Os.
End Os.

(** ** The script *)

Module Resizer.
Section Resizer.
Context {pf : Platform}.
Import Pillow Os.

(** The module docstring, printed as the usage text. *)
Definition doc : string := "
Logo Resizer for Web Projects

Resizes a source logo to common sizes needed for web projects:
- favicon.ico (16x16, 32x32, 48x48 multi-size)
- favicon-16x16.png
- favicon-32x32.png
- apple-touch-icon.png (180x180)
- logo-192.png (PWA)
- logo-512.png (PWA)
- navbar logo (configurable, default 32px height)
- og-image.png (1200x630 with logo centered)

Usage:
    python resize-logo.py <source_logo> [output_dir]
    python resize-logo.py logo.png static/img/
    python resize-logo.py logo.png  # outputs to current directory

Requirements:
    pip install Pillow
".

(** [sizes]; a dict literal is iterated in the order it is written. *)
Definition sizes : list (string * (Z * Z)) :=
  [ ("favicon-16x16.png", (16, 16));
    ("favicon-32x32.png", (32, 32));
    ("favicon-48x48.png", (48, 48));
    ("apple-touch-icon.png", (180, 180));
    ("logo-192.png", (192, 192));
    ("logo-512.png", (512, 512));
    ("logo-64.png", (64, 64)) ].

Definition ico_sizes : list (Z * Z) := [(16, 16); (32, 32); (48, 48)].

Definition og_size : Z * Z := (1200, 630).

(** [resized = img.copy(); resized.thumbnail(size, LANCZOS)] *)
Definition resized (img : Image) (size : Z * Z) : Result Image :=
  thumbnail (copy img) size.

(** [x = (size[0] - resized.width) // 2; y = (size[1] - resized.height) // 2] *)
Definition offset (size : Z * Z) (resized : Image) : Z * Z :=
  ((size.1 - width resized) `div` 2, (size.2 - height resized) `div` 2).

(** The five statements that lines 75-82 and lines 92-97 share: scale a
    copy, make a transparent canvas of the target size, paste at the
    centring offset. *)
Definition fit_and_center (img : Image) (size : Z * Z) : Result Image :=
  rbind (resized img size) (fun resized =>
    let canvas := new "RGBA" size [0; 0; 0; 0] in
    Ok (paste canvas resized (offset size resized) None)).

(** The body of [for filename, size in sizes.items()]. *)
Definition emit_variant (img : Image) (source output : PurePath)
    (entry : string * (Z * Z)) : M unit :=
  let '(filename, size) := entry in
  let output_path := Div output filename in
  if decide (resolve output_path = resolve source) then
    print ("  Skipped: " +:+ filename +:+ " (would overwrite source)")
  else
    canvas ← lift (fit_and_center img size);
    save_png canvas output_path;;
    print ("  Created: " +:+ filename +:+ " (" +:+ pretty size.1 +:+ "x"
             +:+ pretty size.2 +:+ ")").

Definition resize_logo (source_path : string) (output_dir : string) : M unit :=
  let source := Path source_path in
  let output := Path output_dir in
  mkdir output;;
  found ← exists_ source;
  (if negb found then
     print ("Error: Source file not found: " +:+ path_str source);;
     sys_exit 1
   else mret tt);;
  img ← Image_open source;
  let img := if decide (mode img = "RGBA") then img else convert img "RGBA" in
  print ("Source: " +:+ path_str source +:+ " (" +:+ pretty (width img) +:+ "x"
           +:+ pretty (height img) +:+ ")");;
  print ("Output: " +:+ path_str output);;
  print "";;
  for_each sizes (emit_variant img source output);;
  ico_images ← lift (collect (fit_and_center img) ico_sizes);
  let ico_path := Div output "favicon.ico" in
  first ← index ico_images 0;
  save_ico first ico_path ico_sizes (drop 1 ico_images);;
  print "  Created: favicon.ico (16x16, 32x32, 48x48)";;
  let og_image := new "RGBA" og_size [255; 255; 255; 255] in
  og_logo ← lift (thumbnail (copy img) (300, 300));
  let x := (og_size.1 - width og_logo) `div` 2 in
  let y := (og_size.2 - height og_logo) `div` 2 in
  let og_image := paste og_image og_logo (x, y) (Some og_logo) in
  let og_path := Div output "og-image.png" in
  save_png (convert og_image "RGB") og_path;;
  print ("  Created: og-image.png (" +:+ pretty og_size.1 +:+ "x"
           +:+ pretty og_size.2 +:+ ")");;
  print "";;
  print "Done!".

Definition main (argv : list string) : M unit :=
  if (length argv <? 2)%nat then
    print doc;;
    sys_exit 1
  else
    source ← index argv 1;
    output_dir ← (if (2 <? length argv)%nat then index argv 2 else mret ".");
    resize_logo source output_dir.

End Resizer.
End Resizer.

(** ** A platform to run the script on

    No symbolic links and every path named from the working directory: a
    path resolves to its components joined by [/].  Resampling picks the
    nearest source pixel; a masked paste takes the source pixel where the
    mask is not fully transparent. *)
Module Demo.

Fixpoint demo_resolve (p : PurePath) : string :=
  match p with
  | Path s => s
  | Div p name => demo_resolve p +:+ "/" +:+ name
  end.

Definition nearest (im : Image) (size : Z * Z) (i j : Z) : Pixel :=
  getpixel im (i * width im `div` size.1) (j * height im `div` size.2).

Definition demo_blend (dst src mask : Pixel) : Pixel :=
  if decide (mask !! 3%nat = Some 0) then dst else src.

#[export] Instance platform : Platform := {|
  resolve := demo_resolve;
  parents := fun _ => [];
  path_str := demo_resolve;
  LANCZOS := nearest;
  blend := demo_blend;
  convert_other := fun _ _ p => p;
|}.

(** A 64x64 RGBA logo: a red disc on a transparent ground. *)
Definition logo : Image :=
  {| mode := "RGBA"; width := 64; height := 64;
     getpixel := fun i j =>
       if (i - 32) * (i - 32) + (j - 32) * (j - 32) <? 900
       then [200; 30; 30; 255] else [0; 0; 0; 0] |}.

(** A plain opaque RGBA image of the given size. *)
Definition plain (w h : Z) : Image :=
  {| mode := "RGBA"; width := w; height := h;
     getpixel := fun _ _ => [10; 20; 30; 255] |}.

(** File trees: a logo next to an empty place for [out]; a logo that
    sits in [out] under the name of the banner; one under the name of the
    navbar logo; and an empty tree. *)
Definition fs_logo : gmap string Node :=
  {[ "logo.png" := File (ImageFile "PNG" [logo]) ]}.

Definition fs_banner_source : gmap string Node :=
  {[ "out" := Dir; "out/og-image.png" := File (ImageFile "PNG" [logo]) ]}.

Definition fs_navbar_source : gmap string Node :=
  {[ "out" := Dir; "out/logo-64.png" := File (ImageFile "PNG" [logo]) ]}.

Definition fs_empty : gmap string Node := ∅.

(** A tree whose only file is not an image. *)
Definition fs_notes : gmap string Node :=
  {[ "notes.txt" := File OtherFile ]}.

(** The content of the [i]-th file the run on [fs_logo] saves. *)
Definition saved_on_logo (i : nat) : FileData :=
  match saved (Resizer.resize_logo "logo.png" "out" (Os.boot fs_logo)).2 !! i with
  | Some entry => entry.2
  | None => OtherFile
  end.

End Demo.


(** ** Vocabulary of the statements *)

Section Vocabulary.
Context {pf : Platform}.
Import Pillow Os Resizer.

(** [m] keeps [J]: however [m] ends, [J] holds afterwards if it held
    before. *)
Definition keeps {A} (J : World -> Prop) (m : M A) : Prop :=
  forall w, J w -> J (m w).2.

(** Every entry of the log of saved files satisfies [I]. *)
Definition logged (I : PurePath * FileData -> Prop) (w : World) : Prop :=
  Forall I (saved w).

(** The image saved as [og-image.png], from the scaled logo. *)
Definition og_banner (og_logo : Image) : Image :=
  convert
    (paste (new "RGBA" og_size [255; 255; 255; 255]) og_logo
       ((og_size.1 - width og_logo) `div` 2,
        (og_size.2 - height og_logo) `div` 2)
       (Some og_logo))
    "RGB".

(** The three kinds of entries [resize_logo] adds to the log of saved
    files, each with the computation its content comes from. *)
Inductive emitted (source output : PurePath) : PurePath * FileData -> Prop :=
  | emitted_variant img filename size canvas :
      (filename, size) ∈ sizes ->
      resolve (Div output filename) <> resolve source ->
      fit_and_center img size = Ok canvas ->
      emitted source output (Div output filename, ImageFile "PNG" [canvas])
  | emitted_ico img ico_images first frames :
      collect (fit_and_center img) ico_sizes = Ok ico_images ->
      ico_images !! 0%nat = Some first ->
      ico_frames first ico_sizes (drop 1 ico_images) = Ok frames ->
      emitted source output (Div output "favicon.ico", ImageFile "ICO" frames)
  | emitted_og img og_logo :
      thumbnail (copy img) (300, 300) = Ok og_logo ->
      emitted source output
        (Div output "og-image.png", ImageFile "PNG" [og_banner og_logo]).

(** [Image.open(source)] succeeds on [w] and presents [im]. *)
Definition decodes_to (w : World) (source : PurePath) (im : Image) : Prop :=
  exists format frames,
    nodes w !! resolve source = Some (File (ImageFile format frames))
    /\ largest_frame frames = Some im.

(** The names of the nine files of a run. *)
Definition output_names : list string :=
  sizes.*1 ++ ["favicon.ico"; "og-image.png"].

(** The output directory can be made, and once it is, none of the nine
    names is a directory there. *)
Definition usable (w : World) (output : PurePath) : Prop :=
  exists w1,
    mkdir output w = (Ok tt, w1)
    /\ forall name, name ∈ output_names ->
         nodes w1 !! resolve (Div output name) <> Some Dir.

(** The image the script works on: the decoded one, converted when its
    mode is not RGBA. *)
Definition as_rgba (im : Image) : Image :=
  if decide (mode im = "RGBA") then im else convert im "RGBA".

(** What one turn of the loop over [sizes] saves and prints. *)
Definition variant_entry (img : Image) (source output : PurePath)
    (entry : string * (Z * Z)) : list (PurePath * FileData) :=
  if decide (resolve (Div output entry.1) = resolve source) then []
  else
    match fit_and_center img entry.2 with
    | Ok canvas => [(Div output entry.1, ImageFile "PNG" [canvas])]
    | _ => []
    end.

Definition variant_line (source output : PurePath)
    (entry : string * (Z * Z)) : string :=
  if decide (resolve (Div output entry.1) = resolve source) then
    "  Skipped: " +:+ entry.1 +:+ " (would overwrite source)"
  else
    "  Created: " +:+ entry.1 +:+ " (" +:+ pretty entry.2.1 +:+ "x"
      +:+ pretty entry.2.2 +:+ ")".

(** The worlds have the same directories. *)
Definition same_dirs (w w' : World) : Prop :=
  forall q, nodes w' !! q = Some Dir <-> nodes w !! q = Some Dir.

(** The directories [output.mkdir(parents=True)] may create. *)
Definition chain_of (output : PurePath) : list string :=
  resolve output :: parents (resolve output).

(** Where the file tree of [w] differs from [fs], a directory of the chain
    was created or a logged save went there. *)
Definition touched (fs : gmap string Node) (chain : list string)
    (w : World) : Prop :=
  forall q,
    nodes w !! q = fs !! q
    \/ (fs !! q = None /\ nodes w !! q = Some Dir /\ q ∈ chain)
    \/ q ∈ resolve <$> saved_paths w.

(** A file is at every path of the log. *)
Definition saved_are_files (w : World) : Prop :=
  forall p, p ∈ saved_paths w -> is_file (nodes w !! resolve p) = true.

(** What was a file in [fs] is a file in [w], what was a directory is a
    directory. *)
Definition kinds_kept (fs : gmap string Node) (w : World) : Prop :=
  forall q,
    (is_file (fs !! q) = true -> is_file (nodes w !! q) = true)
    /\ (fs !! q = Some Dir -> nodes w !! q = Some Dir).

(** [m] leaves through [sys.exit] with code 1 only. *)
Definition exits_with_1 {A} (m : M A) : Prop :=
  forall w c, (m w).1 = SysExit c -> c = 1.

End Vocabulary.

(** * Properties *)

#[local] Arguments Pillow.thumbnail_size : simpl never.
#[local] Arguments Pillow.round_aspect : simpl never.

(** ** Sizes computed by [thumbnail] *)

Example thumbnail_size_wide : Pillow.thumbnail_size 100 30 (16, 16) = Some (16, 5).
Proof. reflexivity. Qed.

Example thumbnail_size_thin : Pillow.thumbnail_size 1000 1 (16, 16) = Some (16, 1).
Proof. reflexivity. Qed.

Example thumbnail_size_17 : Pillow.thumbnail_size 17 16 (16, 16) = Some (16, 15).
Proof. reflexivity. Qed.

Example thumbnail_size_tall : Pillow.thumbnail_size 30 100 (16, 16) = Some (5, 16).
Proof. reflexivity. Qed.

Section PillowFacts.
Context {pf : Platform}.
Import Pillow.

Lemma round_aspect_cases number key :
  round_aspect number key = Z.max (Qfloor number) 1
  \/ round_aspect number key = Z.max (Qceiling number) 1.
Proof.
  unfold round_aspect. destruct (Qle_bool _ _); [left | right]; reflexivity.
Qed.

Lemma Qfloor_le_ceiling (q : Q) : Qfloor q <= Qceiling q.
Proof.
  rewrite Zle_Qle. eapply Qle_trans; [apply Qfloor_le | apply Qle_ceiling].
Qed.

(** A rounded value never passes an integer bound on the exact one. *)
Lemma round_aspect_le number key (b : Z) :
  1 <= b -> (number <= inject_Z b)%Q -> round_aspect number key <= b.
Proof.
  intros Hb Hle.
  assert (Qceiling number <= b) as Hc.
  { rewrite <- (Qceiling_Z b). by apply Qceiling_resp_le. }
  pose proof (Qfloor_le_ceiling number).
  destruct (round_aspect_cases number key) as [-> | ->]; lia.
Qed.

Lemma round_aspect_ge number key : 1 <= round_aspect number key.
Proof. unfold round_aspect. lia. Qed.


Lemma inject_Z_pos (z : Z) : 0 < z -> (0 < inject_Z z)%Q.
Proof. intros. change 0%Q with (inject_Z 0). by rewrite <- Zlt_Qlt. Qed.

Lemma inject_Z_nonzero (z : Z) : z <> 0 -> ~ (inject_Z z == 0)%Q.
Proof.
  intros Hz E. unfold Qeq in E. simpl in E. lia.
Qed.

(** Whatever the image, the size [thumbnail] settles on lies within a
    box of positive sides. *)
Lemma thumbnail_size_bound (w h x y : Z) (s : Z * Z) :
  0 < x -> 0 < y ->
  thumbnail_size w h (x, y) = Some s -> 1 <= s.1 <= x /\ 1 <= s.2 <= y.
Proof.
  intros Hx Hy. unfold thumbnail_size.
  destruct ((w <=? x) && (h <=? y)); [done |].
  pose proof (inject_Z_pos y Hy) as Hyq. pose proof (inject_Z_pos x Hx) as Hxq.
  assert (~ (inject_Z y == 0)%Q) as Hy0 by (apply inject_Z_nonzero; lia).
  generalize (inject_Z w / inject_Z h)%Q. intros aspect.
  destruct (Qle_bool aspect (inject_Z x / inject_Z y)) eqn:Hle;
    intros [= <-]; simpl.
  - apply Qle_bool_iff in Hle. split; [| lia].
    split; [apply round_aspect_ge |].
    apply round_aspect_le; [lia |].
    rewrite <- (Qmult_div_r (inject_Z x) (inject_Z y)) by exact Hy0.
    apply Qmult_le_l; [exact Hyq | exact Hle].
  - assert (inject_Z x / inject_Z y < aspect)%Q as Hlt.
    { apply Qnot_le_lt. intros Hc. apply Qle_bool_iff in Hc. congruence. }
    assert (0 < aspect)%Q as Ha.
    { eapply Qlt_trans; [| exact Hlt]. apply Qlt_shift_div_l; [exact Hyq |].
      rewrite Qmult_0_l. exact Hxq. }
    split; [lia |]. split; [apply round_aspect_ge |].
    apply round_aspect_le; [lia |].
    apply Qlt_le_weak, Qlt_shift_div_r; [exact Ha |].
    rewrite <- (Qmult_div_r (inject_Z x) (inject_Z y)) by exact Hy0.
    apply Qmult_lt_l; [exact Hyq | exact Hlt].
Qed.






Lemma fits_true (w h x y : Z) :
  (w <=? x) && (h <=? y) = true <-> w <= x /\ h <= y.
Proof. by rewrite andb_true_iff, !Z.leb_le. Qed.

Lemma fits_false (w h x y : Z) :
  (w <=? x) && (h <=? y) = false <-> ~ (w <= x /\ h <= y).
Proof. by rewrite <- fits_true, not_true_iff_false. Qed.

Lemma thumbnail_size_none (w h x y : Z) :
  thumbnail_size w h (x, y) = None <-> w <= x /\ h <= y.
Proof.
  unfold thumbnail_size.
  destruct ((w <=? x) && (h <=? y)) eqn:E.
  - by apply fits_true in E.
  - apply fits_false in E. destruct (Qle_bool _ _); split; done.
Qed.

(** *** [thumbnail] on images *)

Lemma thumbnail_fits (im : Image) (size : Z * Z) :
  width im <= size.1 -> height im <= size.2 -> thumbnail im size = Ok im.
Proof.
  intros Hw Hh. unfold thumbnail.
  destruct ((width im <=? size.1) && (height im <=? size.2)) eqn:E; [done |].
  apply fits_false in E. tauto.
Qed.

(** What [thumbnail] returns: the image itself when it fits, otherwise
    an image of the computed size. *)
Lemma thumbnail_inv (im : Image) (size : Z * Z) (r : Image) :
  thumbnail im size = Ok r ->
  (width im <= size.1 /\ height im <= size.2 /\ r = im)
  \/ (~ (width im <= size.1 /\ height im <= size.2) /\ height im <> 0
      /\ mode r = mode im
      /\ thumbnail_size (width im) (height im) size = Some (im_size r)).
Proof.
  unfold thumbnail. destruct size as [x y]. cbn [fst snd].
  destruct ((width im <=? x) && (height im <=? y)) eqn:E.
  { intros [= <-]. left. apply fits_true in E. tauto. }
  apply fits_false in E.
  destruct ((height im =? 0) || (y =? 0)) eqn:E0; [done |].
  apply orb_false_iff in E0 as [E0 _]. apply Z.eqb_neq in E0.
  destruct (thumbnail_size (width im) (height im) (x, y)) as [final|] eqn:Ets.
  - destruct (decide (im_size im = final)) as [<- | NE]; intros [= Hr];
      subst r; right; (split; [done |]); (split; [done |]); [done |].
    by destruct final.
  - by apply thumbnail_size_none in Ets.
Qed.

Lemma thumbnail_bound (im : Image) (size : Z * Z) (r : Image) :
  0 < size.1 -> 0 < size.2 ->
  thumbnail im size = Ok r -> width r <= size.1 /\ height r <= size.2.
Proof.
  intros Hx Hy Ht. destruct size as [x y].
  destruct (thumbnail_inv _ _ _ Ht) as [(? & ? & ->) | (_ & _ & _ & Hs)]; [done |].
  apply thumbnail_size_bound in Hs; [| done..]. simpl in *. lia.
Qed.

Lemma thumbnail_mode (im : Image) (size : Z * Z) (r : Image) :
  thumbnail im size = Ok r -> mode r = mode im.
Proof.
  intros Ht.
  by destruct (thumbnail_inv _ _ _ Ht) as [(? & ? & ->) | (_ & _ & ? & _)].
Qed.

(** [thumbnail] raises only on a zero height, of the image or of the box. *)
Lemma thumbnail_total (im : Image) (size : Z * Z) :
  height im <> 0 -> size.2 <> 0 -> exists r, thumbnail im size = Ok r.
Proof.
  intros Hh Hy. unfold thumbnail.
  destruct (_ && _); [by eexists |].
  destruct ((height im =? 0) || (size.2 =? 0)) eqn:E0.
  { apply orb_true_iff in E0 as [E0 | E0]; apply Z.eqb_eq in E0; done. }
  destruct (thumbnail_size _ _ _); [| by eexists].
  destruct (decide _); by eexists.
Qed.

End PillowFacts.

(** ** Scaling and centring *)

Section Centering.
Context {pf : Platform}.
Import Pillow Resizer.





End Centering.

(** ** What a run saves, however it ends *)

Section Emitted.
Context {pf : Platform}.
Import Pillow Os Resizer.

Lemma keeps_bind {A B} J (m : M A) (k : A -> M B) :
  keeps J m -> (forall a, keeps J (k a)) -> keeps J (m ≫= k).
Proof.
  intros Hm Hk w HJ. specialize (Hm w HJ).
  unfold mbind, M_bind. destruct (m w) as [[a | c | e] w']; simpl in *; auto.
  by apply Hk.
Qed.

Lemma keeps_lift_bind {A B} J (r : Result A) (k : A -> M B) :
  (forall a, r = Ok a -> keeps J (k a)) -> keeps J (lift r ≫= k).
Proof.
  intros Hk w HJ. unfold mbind, M_bind, lift.
  destruct r as [a | c | e]; simpl; auto. by apply Hk.
Qed.

Lemma keeps_index_bind {A B} J (l : list A) (i : nat) (k : A -> M B) :
  (forall a, l !! i = Some a -> keeps J (k a)) -> keeps J (index l i ≫= k).
Proof.
  intros Hk w HJ. unfold mbind, M_bind, index.
  destruct (l !! i) as [a |]; simpl; auto. by apply Hk.
Qed.

Lemma keeps_ret {A} J (a : A) : keeps J (mret a).
Proof. by intros w HJ. Qed.

Lemma keeps_lift {A} J (r : Result A) : keeps J (lift r).
Proof. by intros w HJ. Qed.

Lemma keeps_for_each {A} J (l : list A) (body : A -> M unit) :
  (forall a, a ∈ l -> keeps J (body a)) -> keeps J (for_each l body).
Proof.
  induction l as [| a l IH]; intros Hb; simpl; [apply keeps_ret |].
  apply keeps_bind; [apply Hb; left |].
  intros _. apply IH. intros b Hin. apply Hb. by right.
Qed.

Lemma log_print I s : keeps (logged I) (print s).
Proof. by intros w HJ. Qed.

Lemma log_mkdir I p : keeps (logged I) (mkdir p).
Proof.
  intros w HJ. unfold mkdir.
  destruct (is_file _); [done |]. by destruct (existsb _ _).
Qed.

Lemma log_exists I p : keeps (logged I) (exists_ p).
Proof. by intros w HJ. Qed.

Lemma log_open I p : keeps (logged I) (Image_open p).
Proof.
  intros w HJ. unfold Image_open.
  destruct (nodes w !! resolve p) as [[| [fmt frames |]] |]; try done.
  by destruct (largest_frame frames).
Qed.

Lemma log_write I p data : I (p, data) -> keeps (logged I) (write_file p data).
Proof.
  intros HI w HJ. unfold write_file, logged.
  destruct (nodes w !! resolve p) as [[| d] |]; simpl; try done;
    apply Forall_app; split; auto.
Qed.

(** Every entry of the log after [resize_logo] that was not there before
    is of one of the three kinds. *)
Lemma resize_logo_emits (source_path output_dir : string) :
  keeps (logged (emitted (Path source_path) (Path output_dir)))
    (resize_logo source_path output_dir).
Proof.
  unfold resize_logo.
  apply keeps_bind; [apply log_mkdir | intros _].
  apply keeps_bind; [apply log_exists | intros found].
  apply keeps_bind.
  { destruct found; simpl; [apply keeps_ret |].
    apply keeps_bind; [apply log_print | intros _; apply keeps_lift]. }
  intros _. apply keeps_bind; [apply log_open | intros img0].
  cbv zeta.
  generalize (if decide (mode img0 = "RGBA") then img0 else convert img0 "RGBA").
  clear img0. intros img.
  do 3 (apply keeps_bind; [apply log_print | intros _]).
  apply keeps_bind.
  { apply keeps_for_each. intros [filename size] Hin. unfold emit_variant.
    destruct (decide (resolve _ = _)) as [E | NE]; [apply log_print |].
    apply keeps_lift_bind. intros canvas Hc.
    apply keeps_bind; [| intros _; apply log_print].
    apply log_write. by eapply emitted_variant. }
  intros _. apply keeps_lift_bind. intros ico_images Hico.
  apply keeps_index_bind. intros first Hfirst.
  apply keeps_bind.
  { unfold save_ico. apply keeps_lift_bind. intros frames Hframes.
    apply log_write. by eapply emitted_ico. }
  intros _. apply keeps_bind; [apply log_print | intros _].
  apply keeps_lift_bind. intros og_logo Hog.
  apply keeps_bind.
  { apply log_write. by eapply emitted_og. }
  intros _. do 2 (apply keeps_bind; [apply log_print | intros _]).
  apply log_print.
Qed.

End Emitted.

(** ** Dimensions and pixels of what is saved *)

Section Saved.
Context {pf : Platform}.
Import Pillow Os Resizer.

Lemma fit_and_center_inv (img : Image) (size : Z * Z) (canvas : Image) :
  fit_and_center img size = Ok canvas ->
  exists r, resized img size = Ok r
    /\ canvas = paste (new "RGBA" size [0; 0; 0; 0]) r (offset size r) None.
Proof.
  unfold fit_and_center. destruct (resized img size) as [r | c | e]; [| done..].
  intros [= <-]. by exists r.
Qed.

(** The canvas has the size of the box, whatever was pasted on it. *)
Lemma fit_and_center_size (img : Image) (size : Z * Z) (canvas : Image) :
  fit_and_center img size = Ok canvas ->
  width canvas = size.1 /\ height canvas = size.2 /\ mode canvas = "RGBA".
Proof. intros (r & _ & ->)%fit_and_center_inv. done. Qed.

Lemma fit_and_center_total (img : Image) (size : Z * Z) :
  height img <> 0 -> size.2 <> 0 -> exists canvas, fit_and_center img size = Ok canvas.
Proof.
  intros Hh Hs. destruct (thumbnail_total img size Hh Hs) as [r Hr].
  unfold fit_and_center, resized, copy. rewrite Hr. by eexists.
Qed.

(** A file name of [sizes] has one box. *)
Lemma sizes_functional (name : string) (s s' : Z * Z) :
  (name, s) ∈ sizes -> (name, s') ∈ sizes -> s = s'.
Proof.
  unfold sizes. rewrite !elem_of_cons, !elem_of_nil.
  intros H1 H2. destruct_or!; simplify_eq; done.
Qed.

Lemma sizes_not_ico (s : Z * Z) : ("favicon.ico", s) ∉ sizes.
Proof.
  unfold sizes. rewrite !elem_of_cons, !elem_of_nil.
  intros Hin. destruct_or!; simplify_eq; done.
Qed.

Lemma sizes_not_og (s : Z * Z) : ("og-image.png", s) ∉ sizes.
Proof.
  unfold sizes. rewrite !elem_of_cons, !elem_of_nil.
  intros Hin. destruct_or!; simplify_eq; done.
Qed.

Lemma saved_emitted (fs : gmap string Node) (source_path output_dir : string) :
  Forall (emitted (Path source_path) (Path output_dir))
    (saved (resize_logo source_path output_dir (boot fs)).2).
Proof. apply resize_logo_emits. constructor. Qed.

(** C6. Every PNG saved under a name of the [sizes] table has exactly
    the width and height of its entry, whatever the source image. *)
Theorem variant_has_table_size (fs : gmap string Node)
    (source_path output_dir name : string) (size : Z * Z) (data : FileData) :
  (name, size) ∈ sizes ->
  (Div (Path output_dir) name, data)
    ∈ saved (resize_logo source_path output_dir (boot fs)).2 ->
  exists canvas,
    data = ImageFile "PNG" [canvas]
    /\ width canvas = size.1 /\ height canvas = size.2.
Proof.
  intros Hin Hsaved.
  pose proof (saved_emitted fs source_path output_dir) as Hall.
  rewrite Forall_forall in Hall. specialize (Hall _ Hsaved).
  inversion Hall as [img filename size' canvas Hin' _ Hfit
                    | img ico_images first frames _ _ _
                    | img og_logo _]; subst.
  - rewrite (sizes_functional _ _ _ Hin Hin').
    exists canvas. split; [done |].
    by destruct (fit_and_center_size _ _ _ Hfit) as (? & ? & _).
  - by apply sizes_not_ico in Hin.
  - by apply sizes_not_og in Hin.
Qed.

Lemma half_bounds (n : Z) : 2 * (n `div` 2) <= n < 2 * (n `div` 2) + 2.
Proof.
  pose proof (Z.div_mod n 2). pose proof (Z.mod_pos_bound n 2). lia.
Qed.

(** A logo within 300x300 pasted at the centre of the 1200x630 banner
    leaves the four corners as they were. *)
Lemma og_corner_outside (w h i j : Z) :
  w <= 300 -> h <= 300 -> i = 0 \/ i = 1199 -> j = 0 \/ j = 629 ->
  in_box ((1200 - w) `div` 2) ((630 - h) `div` 2) w h i j = false.
Proof.
  intros Hw Hh Hi Hj. unfold in_box.
  pose proof (half_bounds (1200 - w)). pose proof (half_bounds (630 - h)).
  destruct Hi as [-> | ->].
  - replace ((1200 - w) `div` 2 <=? 0) with false; [done |].
    symmetry. apply Z.leb_gt. lia.
  - replace (1199 <? (1200 - w) `div` 2 + w) with false.
    { by rewrite andb_false_r. }
    symmetry. apply Z.ltb_ge. lia.
Qed.

(** C8. The image saved as [og-image.png] is 1200 by 630, in mode RGB
    (three bands, no alpha), and its four corner pixels are white. *)
Theorem og_image_white_corners (fs : gmap string Node)
    (source_path output_dir : string) (data : FileData) :
  (Div (Path output_dir) "og-image.png", data)
    ∈ saved (resize_logo source_path output_dir (boot fs)).2 ->
  exists im,
    data = ImageFile "PNG" [im]
    /\ width im = 1200 /\ height im = 630 /\ mode im = "RGB"
    /\ forall i j, i = 0 \/ i = 1199 -> j = 0 \/ j = 629 ->
         getpixel im i j = [255; 255; 255].
Proof.
  intros Hsaved.
  pose proof (saved_emitted fs source_path output_dir) as Hall.
  rewrite Forall_forall in Hall. specialize (Hall _ Hsaved).
  inversion Hall as [img filename size' canvas Hin' _ Hfit
                    | img ico_images first frames _ _ _
                    | img og_logo Hog]; subst.
  - by apply sizes_not_og in Hin'.
  - eexists. split; [reflexivity |]. do 3 (split; [reflexivity |]).
    intros i j Hi Hj.
    apply thumbnail_bound in Hog as [Hw Hh]; [| done..]. simpl in Hw, Hh.
    cbn [getpixel og_banner convert paste new og_size fst snd width height mode].
    rewrite (og_corner_outside _ _ i j Hw Hh Hi Hj). reflexivity.
Qed.

End Saved.

(** ** Runs that complete *)

Section Completes.
Context {pf : Platform}.
Import Pillow Os Resizer.

Lemma bind_ok {A B} (m : M A) (k : A -> M B) (w w' : World) (a : A) :
  m w = (Ok a, w') -> (m ≫= k) w = k a w'.
Proof. intros Hm. unfold mbind, M_bind. by rewrite Hm. Qed.

Lemma lookup_mkdir_chain (chain : list string) (m : gmap string Node) (q : string) :
  q ∉ chain -> foldr (fun q m => <[q := Dir]> m) m chain !! q = m !! q.
Proof.
  induction chain as [| c chain IH]; intros Hq; simpl; [done |].
  apply not_elem_of_cons in Hq as [Hne Hq].
  rewrite lookup_insert_ne by done. by apply IH.
Qed.

(** A successful [mkdir] leaves every file where it was. *)
Lemma mkdir_keeps_files (p : PurePath) (w w1 : World) (q : string) (d : FileData) :
  mkdir p w = (Ok tt, w1) ->
  nodes w !! q = Some (File d) -> nodes w1 !! q = Some (File d).
Proof.
  unfold mkdir. intros Hmk Hq.
  destruct (is_file (nodes w !! resolve p)) eqn:E1; [done |].
  destruct (existsb _ (parents (resolve p))) eqn:E2; [done |].
  injection Hmk as <-. cbn [nodes].
  etrans; [apply (lookup_mkdir_chain (resolve p :: parents (resolve p))) | done].
  intros [-> | Hin]%elem_of_cons.
  - by rewrite Hq in E1.
  - assert (existsb (fun q => is_file (nodes w !! q)) (parents (resolve p)) = true);
      [| congruence].
    apply existsb_exists. exists q. split; [by apply list_elem_of_In |].
    by rewrite Hq.
Qed.

Lemma mkdir_keeps_log (p : PurePath) (w w1 : World) :
  mkdir p w = (Ok tt, w1) -> saved w1 = saved w /\ stdout w1 = stdout w.
Proof.
  unfold mkdir. destruct (is_file _); [done |].
  destruct (existsb _ _); [done |]. by intros [= <-].
Qed.

Lemma write_file_run (p : PurePath) (data : FileData) (w : World) :
  nodes w !! resolve p <> Some Dir ->
  write_file p data w
  = (Ok tt, {| nodes := <[resolve p := File data]> (nodes w);
               stdout := stdout w;
               saved := saved w ++ [(p, data)] |}).
Proof.
  intros Hno. unfold write_file.
  by destruct (nodes w !! resolve p) as [[| d] |].
Qed.

Lemma dir_insert_file (m : gmap string Node) (q q' : string) (d : FileData) :
  m !! q <> Some Dir ->
  <[q := File d]> m !! q' = Some Dir <-> m !! q' = Some Dir.
Proof.
  intros Hno.
  destruct (decide (q = q')) as [<- | Hne].
  - rewrite lookup_insert_eq. split; [done | by intros ?].
  - by rewrite lookup_insert_ne.
Qed.

(** One turn of the loop, when nothing stands in its way. *)
Lemma emit_variant_run (img : Image) (source output : PurePath)
    (entry : string * (Z * Z)) (w : World) :
  height img <> 0 -> entry.2.2 <> 0 ->
  nodes w !! resolve (Div output entry.1) <> Some Dir ->
  exists w',
    emit_variant img source output entry w = (Ok tt, w')
    /\ saved w' = saved w ++ variant_entry img source output entry
    /\ stdout w' = stdout w ++ [variant_line source output entry]
    /\ same_dirs w w'.
Proof.
  intros Hh Hs Hno. destruct entry as [filename size]. cbn [fst snd] in *.
  unfold emit_variant, variant_entry, variant_line. cbn [fst snd].
  destruct (decide (resolve _ = _)) as [E | NE].
  - eexists. split; [reflexivity |]. cbn [saved stdout].
    split; [by rewrite app_nil_r |]. split; [done |]. by intros q.
  - destruct (fit_and_center_total img size Hh Hs) as [canvas Hc].
    rewrite Hc. unfold lift, save_png.
    erewrite bind_ok by reflexivity.
    erewrite bind_ok by (by apply write_file_run).
    eexists. split; [reflexivity |]. cbn [saved stdout].
    split; [done |]. split; [done |].
    intros q. cbn [nodes]. by apply dir_insert_file.
Qed.

Lemma for_each_variants (img : Image) (source output : PurePath)
    (l : list (string * (Z * Z))) (w : World) :
  height img <> 0 ->
  Forall (fun e => e.2.2 <> 0) l ->
  (forall e, e ∈ l -> nodes w !! resolve (Div output e.1) <> Some Dir) ->
  exists w',
    for_each l (emit_variant img source output) w = (Ok tt, w')
    /\ saved w' = saved w ++ (l ≫= variant_entry img source output)
    /\ stdout w' = stdout w ++ (variant_line source output <$> l)
    /\ same_dirs w w'.
Proof.
  intros Hh. revert w.
  induction l as [| e l IH]; intros w Hl Hno.
  - exists w. simpl. rewrite !app_nil_r. by repeat split.
  - apply Forall_cons in Hl as [He Hl].
    destruct (emit_variant_run img source output e w Hh He) as (w1 & H1 & Hs1 & Ho1 & Hd1).
    { apply Hno. left. }
    destruct (IH w1 Hl) as (w2 & H2 & Hs2 & Ho2 & Hd2).
    { intros e' Hin Hdir. apply Hd1 in Hdir. revert Hdir. apply Hno. by right. }
    exists w2. simpl. rewrite (bind_ok _ _ _ _ _ H1).
    split; [exact H2 |]. rewrite Hs2, Hs1, Ho2, Ho1, <- !app_assoc.
    split; [done |]. split; [done |].
    intros q. etrans; [apply Hd2 | apply Hd1].
Qed.

(** The three canvases for [favicon.ico] exist, and the ICO writer,
    called on the first of them, keeps that one alone: 32 and 48 are
    larger than the 16x16 image [save] is called on. *)
Lemma ico_frames_of_canvases (img : Image) :
  height img <> 0 ->
  exists c16 c32 c48,
    collect (fit_and_center img) ico_sizes = Ok [c16; c32; c48]
    /\ im_size c16 = (16, 16) /\ im_size c32 = (32, 32) /\ im_size c48 = (48, 48)
    /\ ico_frames c16 ico_sizes [c32; c48] = Ok [c16].
Proof.
  intros Hh.
  destruct (fit_and_center_total img (16, 16) Hh) as [c16 H16]; [done |].
  destruct (fit_and_center_total img (32, 32) Hh) as [c32 H32]; [done |].
  destruct (fit_and_center_total img (48, 48) Hh) as [c48 H48]; [done |].
  exists c16, c32, c48. unfold ico_sizes. cbn [collect].
  rewrite H16, H32, H48. cbn [rbind].
  split; [done |].
  apply fit_and_center_inv in H16 as (r16 & _ & ->).
  apply fit_and_center_inv in H32 as (r32 & _ & ->).
  apply fit_and_center_inv in H48 as (r48 & _ & ->).
  by repeat split.
Qed.

Lemma decoded_after_mkdir (w w1 : World) (source output : PurePath) (im : Image) :
  mkdir output w = (Ok tt, w1) -> decodes_to w source im -> decodes_to w1 source im.
Proof.
  intros Hmk (format & frames & Hnode & Hl). exists format, frames.
  split; [| done]. by eapply mkdir_keeps_files.
Qed.

(** The whole run, for a decodable source and a usable output directory:
    it ends normally, and the log and the output are exactly these. *)
Lemma resize_logo_completes (w : World) (source_path output_dir : string)
    (im0 : Image) :
  let source := Path source_path in
  let output := Path output_dir in
  let img := as_rgba im0 in
  decodes_to w source im0 -> height im0 <> 0 -> usable w output ->
  exists w' c16 c32 c48 og_logo,
    resize_logo source_path output_dir w = (Ok tt, w')
    /\ collect (fit_and_center img) ico_sizes = Ok [c16; c32; c48]
    /\ thumbnail (copy img) (300, 300) = Ok og_logo
    /\ saved w'
       = saved w ++ (sizes ≫= variant_entry img source output)
         ++ [(Div output "favicon.ico", ImageFile "ICO" [c16]);
             (Div output "og-image.png", ImageFile "PNG" [og_banner og_logo])]
    /\ stdout w'
       = stdout w
         ++ ["Source: " +:+ path_str source +:+ " (" +:+ pretty (width img)
               +:+ "x" +:+ pretty (height img) +:+ ")";
             "Output: " +:+ path_str output; ""]
         ++ (variant_line source output <$> sizes)
         ++ ["  Created: favicon.ico (16x16, 32x32, 48x48)";
             "  Created: og-image.png (1200x630)"; ""; "Done!"].
Proof.
  intros source output img Hdec Hh (w1 & Hmk & Hfree).
  assert (height img <> 0) as Hh'.
  { subst img. unfold as_rgba. by destruct (decide _). }
  destruct (decoded_after_mkdir _ _ _ _ _ Hmk Hdec) as (format & frames & Hnode & Hl).
  destruct (mkdir_keeps_log _ _ _ Hmk) as [Hsaved1 Hout1].
  destruct (ico_frames_of_canvases img Hh') as (c16 & c32 & c48 & Hico & _ & _ & _ & Hframes).
  destruct (thumbnail_total (copy img) (300, 300) Hh') as [og_logo Hog]; [done |].
  unfold resize_logo. fold source output.
  rewrite (bind_ok _ _ _ _ _ Hmk).
  erewrite bind_ok; cycle 1.
  { unfold exists_. rewrite Hnode. rewrite bool_decide_eq_true_2 by eauto.
    reflexivity. }
  cbn [negb]. erewrite bind_ok by reflexivity.
  erewrite bind_ok; cycle 1.
  { unfold Image_open. rewrite Hnode, Hl. reflexivity. }
  cbv zeta. fold (as_rgba im0). fold img.
  do 3 (erewrite bind_ok by reflexivity). cbn [nodes stdout saved].
  match goal with |- context [mbind _ (for_each sizes _) ?w0] =>
    destruct (for_each_variants img source output sizes w0 Hh')
      as (w2 & Hloop & Hsaved2 & Hout2 & Hdirs2)
  end.
  { unfold sizes. repeat constructor; done. }
  { intros e Hin. cbn [nodes]. apply Hfree. unfold output_names.
    apply elem_of_app. left. by apply list_elem_of_fmap_2. }
  rewrite (bind_ok _ _ _ _ _ Hloop).
  rewrite Hico. erewrite bind_ok by reflexivity.
  erewrite bind_ok by reflexivity.
  cbn [drop]. unfold save_ico. rewrite Hframes.
  erewrite bind_ok; cycle 1.
  { erewrite bind_ok by reflexivity. apply write_file_run.
    intros Hdir. apply Hdirs2 in Hdir. revert Hdir. cbn [nodes].
    apply Hfree. unfold output_names. apply elem_of_app. right. by left. }
  erewrite bind_ok by reflexivity.
  rewrite Hog. erewrite bind_ok by reflexivity.
  erewrite bind_ok; cycle 1.
  { apply write_file_run. cbn [nodes].
    rewrite dir_insert_file.
    - intros Hdir. apply Hdirs2 in Hdir. revert Hdir. cbn [nodes].
      apply Hfree. unfold output_names. apply elem_of_app. right.
      right. by left.
    - intros Hdir. apply Hdirs2 in Hdir. revert Hdir. cbn [nodes].
      apply Hfree. unfold output_names. apply elem_of_app. right. by left. }
  do 2 (erewrite bind_ok by reflexivity).
  eexists _, c16, c32, c48, og_logo.
  split; [reflexivity |]. split; [done |]. split; [done |].
  cbn [saved stdout]. rewrite Hsaved2, Hout2. cbn [saved stdout].
  rewrite Hsaved1, Hout1, <- !app_assoc. split; reflexivity.
Qed.

End Completes.

(** ** The files of a run *)

Section Files.
Context {pf : Platform}.
Import Pillow Os Resizer.

Lemma variant_entries_paths (img : Image) (source output : PurePath)
    (l : list (string * (Z * Z))) :
  height img <> 0 ->
  Forall (fun e => e.2.2 <> 0) l ->
  (l ≫= variant_entry img source output).*1
  = Div output
      <$> filter (fun n => resolve (Div output n) <> resolve source) (l.*1).
Proof.
  intros Hh. induction 1 as [| [n size] l Hs _ IH]; [done |].
  cbn [fst snd] in Hs. rewrite bind_cons, fmap_app, IH, fmap_cons.
  cbn [fst]. rewrite filter_cons. unfold variant_entry. cbn [fst snd].
  destruct (decide (resolve _ = _)) as [E | NE].
  - by rewrite decide_False by (by intros ?).
  - rewrite decide_True by done.
    destruct (fit_and_center_total img size Hh Hs) as [canvas ->]. done.
Qed.

Lemma sizes_boxes_nonzero : Forall (fun e : string * (Z * Z) => e.2.2 <> 0) sizes.
Proof. unfold sizes. repeat constructor; done. Qed.

Lemma as_rgba_height (im : Image) : height (as_rgba im) = height im.
Proof. unfold as_rgba. by destruct (decide _). Qed.

(** C5. For a decodable source and a usable output directory the run
    ends normally and saves, in this order and nothing else: the sized
    variants the guard does not skip, [favicon.ico], [og-image.png], each
    at the output directory joined with its name. *)
Theorem run_saves_the_nine_files (fs : gmap string Node)
    (source_path output_dir : string) (im0 : Image) :
  let source := Path source_path in
  let output := Path output_dir in
  decodes_to (boot fs) source im0 -> height im0 <> 0 ->
  usable (boot fs) output ->
  exists w',
    resize_logo source_path output_dir (boot fs) = (Ok tt, w')
    /\ saved_paths w'
       = (Div output
            <$> filter (fun n => resolve (Div output n) <> resolve source)
                  ["favicon-16x16.png"; "favicon-32x32.png";
                   "favicon-48x48.png"; "apple-touch-icon.png";
                   "logo-192.png"; "logo-512.png"; "logo-64.png"])
         ++ [Div output "favicon.ico"; Div output "og-image.png"].
Proof.
  intros source output Hdec Hh Huse.
  destruct (resize_logo_completes _ _ _ _ Hdec Hh Huse)
    as (w' & c16 & c32 & c48 & og_logo & Hrun & _ & _ & Hsaved & _).
  exists w'. split; [exact Hrun |].
  unfold saved_paths. rewrite Hsaved. cbn [saved boot].
  rewrite app_nil_l, fmap_app.
  rewrite variant_entries_paths;
    [reflexivity | by rewrite as_rgba_height | apply sizes_boxes_nonzero].
Qed.

(** C9. When the output path of a sized variant resolves to the source,
    the run still ends normally (status 0): the skip is reported, no file
    is saved under that name, and every other sized variant,
    [favicon.ico] and [og-image.png] are saved. *)
Theorem skipped_variant_is_no_error (fs : gmap string Node)
    (source_path output_dir : string) (im0 : Image)
    (name : string) (size : Z * Z) :
  let source := Path source_path in
  let output := Path output_dir in
  decodes_to (boot fs) source im0 -> height im0 <> 0 ->
  usable (boot fs) output ->
  (name, size) ∈ sizes ->
  resolve (Div output name) = resolve source ->
  exists w',
    resize_logo source_path output_dir (boot fs) = (Ok tt, w')
    /\ exit_status (resize_logo source_path output_dir (boot fs)).1 = 0
    /\ ("  Skipped: " +:+ name +:+ " (would overwrite source)") ∈ stdout w'
    /\ (Div output name ∉ saved_paths w')
    /\ (forall n s, (n, s) ∈ sizes ->
          resolve (Div output n) <> resolve source ->
          Div output n ∈ saved_paths w')
    /\ Div output "favicon.ico" ∈ saved_paths w'
    /\ Div output "og-image.png" ∈ saved_paths w'.
Proof.
  intros source output Hdec Hh Huse Hin Hsame.
  destruct (resize_logo_completes _ _ _ _ Hdec Hh Huse)
    as (w' & c16 & c32 & c48 & og_logo & Hrun & _ & _ & Hsaved & Hout).
  exists w'. split; [exact Hrun |]. split; [by rewrite Hrun |].
  assert (saved_paths w'
          = (Div output
               <$> filter (fun n => resolve (Div output n) <> resolve source)
                     (sizes.*1))
            ++ [Div output "favicon.ico"; Div output "og-image.png"]) as Hpaths.
  { unfold saved_paths. rewrite Hsaved. cbn [saved boot].
    rewrite app_nil_l, fmap_app.
    rewrite variant_entries_paths;
      [reflexivity | by rewrite as_rgba_height | apply sizes_boxes_nonzero]. }
  split.
  { rewrite Hout. apply elem_of_app. right. apply elem_of_app. right.
    apply elem_of_app. left.
    apply list_elem_of_fmap. exists (name, size). split; [| done].
    unfold variant_line. cbn [fst snd]. by rewrite decide_True. }
  rewrite Hpaths. split.
  { intros [Hv | Hrest]%elem_of_app.
    - apply list_elem_of_fmap in Hv as (n & [= <-] & Hn).
      apply list_elem_of_filter in Hn as [Hne _]. done.
    - apply elem_of_cons in Hrest as [[= ->] | Hrest];
        [by apply sizes_not_ico in Hin |].
      apply elem_of_cons in Hrest as [[= ->] | Hrest];
        [by apply sizes_not_og in Hin |].
      by apply elem_of_nil in Hrest. }
  split.
  { intros n s Hn Hne. apply elem_of_app. left.
    apply list_elem_of_fmap. exists n. split; [done |].
    apply list_elem_of_filter. split; [done |].
    apply list_elem_of_fmap. by exists (n, s). }
  split; apply elem_of_app; right; [left | right; left].
Qed.

End Files.

(** ** Failing early *)

Section Early.
Context {pf : Platform}.
Import Pillow Os Resizer.

(** What [mkdir] does to the state, whether it raises or not. *)
Lemma mkdir_effect (p : PurePath) (w : World) :
  saved (mkdir p w).2 = saved w
  /\ stdout (mkdir p w).2 = stdout w
  /\ forall q,
       nodes (mkdir p w).2 !! q = nodes w !! q
       \/ (nodes w !! q = None /\ nodes (mkdir p w).2 !! q = Some Dir
           /\ q ∈ resolve p :: parents (resolve p)).
Proof.
  unfold mkdir.
  destruct (is_file (nodes w !! resolve p)) eqn:E1; [by repeat split; left |].
  destruct (existsb _ (parents (resolve p))) eqn:E2; [by repeat split; left |].
  cbn [snd saved stdout nodes]. split; [done |]. split; [done |].
  assert (forall q, q ∈ resolve p :: parents (resolve p) ->
                    is_file (nodes w !! q) = false) as Hchain.
  { intros q [-> | Hin]%elem_of_cons; [done |].
    destruct (is_file (nodes w !! q)) eqn:Eq; [| done].
    assert (existsb (fun q => is_file (nodes w !! q)) (parents (resolve p)) = true);
      [| congruence].
    apply existsb_exists. exists q. split; [by apply list_elem_of_In | done]. }
  revert Hchain. generalize (resolve p :: parents (resolve p)). intros chain.
  induction chain as [| c chain IH]; intros Hchain q; [by left |].
  cbn [foldr]. destruct (decide (c = q)) as [-> | Hne].
  - rewrite lookup_insert_eq.
    specialize (Hchain q ltac:(left)).
    destruct (nodes w !! q) as [[| d] |] eqn:Eq; [by left | done |].
    right. repeat split. left.
  - rewrite lookup_insert_ne by done.
    destruct (IH (fun q' Hq' => Hchain q' ltac:(by right)) q)
      as [Hsame | (? & ? & ?)]; [by left |].
    right. repeat split; [done.. |]. by right.
Qed.

Lemma bind_run {A B} (m : M A) (k : A -> M B) (w : World) :
  (m ≫= k) w
  = match m w with
    | (Ok a, w') => k a w'
    | (SysExit c, w') => (SysExit c, w')
    | (Raised e, w') => (Raised e, w')
    end.
Proof. reflexivity. Qed.

Lemma mkdir_no_exit (p : PurePath) (w : World) (c : Z) :
  (mkdir p w).1 <> SysExit c.
Proof.
  unfold mkdir. destruct (is_file _); [done |]. by destruct (existsb _ _).
Qed.

(** C2, as the code has it.  When no file is at the resolved source
    path, the process ends with status 1 and saves nothing; the file tree
    changes at most by the output directory and its missing ancestors,
    which [mkdir] creates before the source is looked for. *)
Theorem missing_source_exits_1 (w : World) (prog source_path : string)
    (rest : list string) :
  (forall data, nodes w !! resolve (Path source_path) <> Some (File data)) ->
  let output := Path (default "." (rest !! 0%nat)) in
  let run := main (prog :: source_path :: rest) w in
  exit_status run.1 = 1
  /\ saved run.2 = saved w
  /\ forall q,
       nodes run.2 !! q = nodes w !! q
       \/ (nodes w !! q = None /\ nodes run.2 !! q = Some Dir
           /\ q ∈ resolve output :: parents (resolve output)).
Proof.
  intros Hnofile output run.
  assert (run = resize_logo source_path (default "." (rest !! 0%nat)) w) as ->.
  { subst run. unfold main. by destruct rest. }
  generalize (surjective_pairing (resize_logo source_path (default "." (rest !! 0%nat)) w)).
  generalize (resize_logo source_path (default "." (rest !! 0%nat)) w).1.
  generalize (resize_logo source_path (default "." (rest !! 0%nat)) w).2.
  intros w' r Hrun. cbn [fst snd].
  unfold resize_logo in Hrun. fold output in Hrun.
  destruct (mkdir_effect output w) as (Hsaved & _ & Hnodes).
  pose proof (mkdir_no_exit output w) as Hnoexit.
  rewrite bind_run in Hrun.
  destruct (mkdir output w) as [[[] | c | e] w1] eqn:Hmk; cbn [fst snd] in *;
    [| by destruct (Hnoexit c) | by simplify_eq].
  assert (forall data, nodes w1 !! resolve (Path source_path) <> Some (File data))
    as Hnofile1.
  { intros data Hfile.
    destruct (Hnodes (resolve (Path source_path))) as [Hsame | (_ & Hdir & _)];
      [| congruence].
    rewrite Hsame in Hfile. by apply Hnofile in Hfile. }
  rewrite bind_run in Hrun. unfold exists_ at 1 in Hrun.
  destruct (bool_decide _) eqn:Hex; cbn [negb] in Hrun.
  - rewrite bind_run in Hrun. cbn [mret M_ret] in Hrun.
    rewrite bind_run in Hrun. unfold Image_open at 1 in Hrun.
    destruct (nodes w1 !! resolve (Path source_path)) as [[| [fmt frames |]] |] eqn:E;
      try (by simplify_eq).
    all: exfalso; by eapply Hnofile1.
  - rewrite !bind_run in Hrun. unfold print at 1, sys_exit, lift in Hrun.
    by simplify_eq.
Qed.

(** C10. Arguments after the output directory are not read: the run is
    the run of the first two. *)
Theorem extra_arguments_ignored (prog source output_dir : string)
    (extra : list string) (w : World) :
  main (prog :: source :: output_dir :: extra) w
  = main [prog; source; output_dir] w.
Proof. reflexivity. Qed.

End Early.

(** ** Runs on the demo platform *)

Section Runs.
Import Pillow Os Resizer Demo.

Example run_on_logo :
  let run := main ["resize-logo.py"; "logo.png"; "out"] (boot fs_logo) in
  run.1 = Ok tt
  /\ demo_resolve <$> saved_paths run.2
     = ["out/favicon-16x16.png"; "out/favicon-32x32.png";
        "out/favicon-48x48.png"; "out/apple-touch-icon.png";
        "out/logo-192.png"; "out/logo-512.png"; "out/logo-64.png";
        "out/favicon.ico"; "out/og-image.png"]
  /\ stdout run.2
     = ["Source: logo.png (64x64)"; "Output: out"; "";
        "  Created: favicon-16x16.png (16x16)";
        "  Created: favicon-32x32.png (32x32)";
        "  Created: favicon-48x48.png (48x48)";
        "  Created: apple-touch-icon.png (180x180)";
        "  Created: logo-192.png (192x192)";
        "  Created: logo-512.png (512x512)";
        "  Created: logo-64.png (64x64)";
        "  Created: favicon.ico (16x16, 32x32, 48x48)";
        "  Created: og-image.png (1200x630)"; ""; "Done!"].
Proof. vm_compute. done. Qed.

Example run_without_arguments :
  let run := main ["resize-logo.py"] (boot fs_logo) in
  run.1 = SysExit 1 /\ saved run.2 = [] /\ nodes run.2 = fs_logo
  /\ stdout run.2 = [doc].
Proof. vm_compute. done. Qed.

(** C1 fails on the code: [og-image.png] is saved without the guard of
    the loop.  With the source at [out/og-image.png] and [out] as output
    directory, the run ends normally and the ninth save goes to the path
    of the source, which afterwards holds the 1200x630 banner. *)
Theorem banner_saved_over_source :
  let source := Path "out/og-image.png" in
  let run := resize_logo "out/og-image.png" "out" (boot fs_banner_source) in
  run.1 = Ok tt
  /\ resolve (Div (Path "out") "og-image.png") = resolve source
  /\ saved_paths run.2 !! 8%nat = Some (Div (Path "out") "og-image.png")
  /\ exists im,
       nodes run.2 !! resolve source = Some (File (ImageFile "PNG" [im]))
       /\ im_size im = (1200, 630).
Proof.
  vm_compute. repeat split. eexists. split; reflexivity.
Qed.

(** The same holds for [favicon.ico]. *)
Example favicon_saved_over_source :
  let source := Path "out/favicon.ico" in
  let fs : gmap string Node :=
    {[ "out" := Dir; "out/favicon.ico" := File (ImageFile "ICO" [logo]) ]} in
  let run := resize_logo "out/favicon.ico" "out" (boot fs) in
  run.1 = Ok tt
  /\ resolve (Div (Path "out") "favicon.ico") = resolve source
  /\ saved_paths run.2 !! 7%nat = Some (Div (Path "out") "favicon.ico").
Proof. vm_compute. done. Qed.

(** C7 fails on the code: the file saved as [favicon.ico] embeds one
    image, the 16x16 canvas.  [save] is called on that canvas, and the
    ICO writer passes over the requested sizes 32x32 and 48x48 because
    they are larger than it. *)
Theorem favicon_ico_embeds_one_image :
  let run := resize_logo "logo.png" "out" (boot fs_logo) in
  run.1 = Ok tt
  /\ exists c16,
       saved run.2 !! 7%nat
       = Some (Div (Path "out") "favicon.ico", ImageFile "ICO" [c16])
       /\ im_size c16 = (16, 16).
Proof.
  vm_compute. split; [done |]. eexists. split; reflexivity.
Qed.

(** C2 fails as stated: with no source and no output directory, the run
    ends with status 1 after it has created the directory. *)
Lemma missing_source_creates_directory :
  let w := boot fs_empty in
  let run := main ["resize-logo.py"; "nope.png"; "newdir"] w in
  nodes w !! resolve (Path "nope.png") = None
  /\ exit_status run.1 = 1
  /\ nodes w !! "newdir" = None
  /\ nodes run.2 !! "newdir" = Some Dir
  /\ nodes run.2 <> nodes w.
Proof.
  intros w run. repeat split; try (vm_compute; reflexivity).
  intros Heq. apply (f_equal (fun m => m !! "newdir")) in Heq.
  vm_compute in Heq. discriminate.
Qed.


(** No image of whole positive sides within 16x16 has the ratio 17:16. *)
Remark no_exact_ratio_in_box (a b : Z) :
  0 < a <= 16 -> 0 < b <= 16 -> a * height (plain 17 16) <> b * width (plain 17 16).
Proof. simpl. lia. Qed.

End Runs.

(** ** The theorems at concrete inputs *)

Section Witnesses.
Import Pillow Os Resizer Demo.

Lemma logo_decodes : decodes_to (boot fs_logo) (Path "logo.png") logo.
Proof. exists "PNG", [logo]. split; reflexivity. Qed.

Lemma navbar_logo_decodes :
  decodes_to (boot fs_navbar_source) (Path "out/logo-64.png") logo.
Proof. exists "PNG", [logo]. split; reflexivity. Qed.

Lemma names_not_directories (w1 : World) :
  Forall (fun name => nodes w1 !! resolve (Div (Path "out") name) <> Some Dir)
    output_names ->
  forall name, name ∈ output_names ->
    nodes w1 !! resolve (Div (Path "out") name) <> Some Dir.
Proof. intros Hall name Hin. rewrite Forall_forall in Hall. by apply Hall. Qed.

Lemma out_usable_beside_logo : usable (boot fs_logo) (Path "out").
Proof.
  eexists. split; [reflexivity |]. apply names_not_directories.
  unfold output_names. repeat constructor; by vm_compute.
Qed.

Lemma out_usable_around_logo : usable (boot fs_navbar_source) (Path "out").
Proof.
  eexists. split; [reflexivity |]. apply names_not_directories.
  unfold output_names. repeat constructor; by vm_compute.
Qed.



Lemma run_saves_the_nine_files_witness :
  exists w',
    resize_logo "logo.png" "out" (boot fs_logo) = (Ok tt, w')
    /\ length (saved_paths w') = 9%nat.
Proof.
  destruct (run_saves_the_nine_files fs_logo "logo.png" "out" logo
              logo_decodes ltac:(discriminate) out_usable_beside_logo)
    as (w' & Hrun & Hpaths).
  exists w'. split; [exact Hrun |]. rewrite Hpaths. reflexivity.
Defined.

Lemma skipped_variant_is_no_error_witness :
  resolve (Div (Path "out") "logo-64.png") = resolve (Path "out/logo-64.png")
  /\ exists w',
       resize_logo "out/logo-64.png" "out" (boot fs_navbar_source) = (Ok tt, w')
       /\ "  Skipped: logo-64.png (would overwrite source)" ∈ stdout w'
       /\ Div (Path "out") "og-image.png" ∈ saved_paths w'.
Proof.
  split; [reflexivity |].
  destruct (skipped_variant_is_no_error fs_navbar_source "out/logo-64.png" "out"
              logo "logo-64.png" (64, 64)
              navbar_logo_decodes ltac:(discriminate) out_usable_around_logo)
    as (w' & Hrun & _ & Hmsg & _ & _ & _ & Hog).
  - unfold sizes. do 6 right. left.
  - reflexivity.
  - exists w'. split; [exact Hrun |]. split; [exact Hmsg | exact Hog].
Defined.

Lemma variant_has_table_size_witness :
  exists canvas,
    saved_on_logo 1 = ImageFile "PNG" [canvas]
    /\ width canvas = 32 /\ height canvas = 32.
Proof.
  apply (variant_has_table_size fs_logo "logo.png" "out" "favicon-32x32.png"
           (32, 32) (saved_on_logo 1)).
  - unfold sizes. right. left.
  - apply (list_elem_of_lookup_2 _ 1%nat). reflexivity.
Defined.

Lemma og_image_white_corners_witness :
  exists im,
    saved_on_logo 8 = ImageFile "PNG" [im]
    /\ width im = 1200 /\ height im = 630 /\ mode im = "RGB"
    /\ forall i j, i = 0 \/ i = 1199 -> j = 0 \/ j = 629 ->
         getpixel im i j = [255; 255; 255].
Proof.
  apply (og_image_white_corners fs_logo "logo.png" "out" (saved_on_logo 8)).
  apply (list_elem_of_lookup_2 _ 8%nat). reflexivity.
Defined.

Lemma missing_source_exits_1_witness :
  let run := main ["resize-logo.py"; "nope.png"; "newdir"] (boot fs_empty) in
  (forall data, nodes (boot fs_empty) !! resolve (Path "nope.png") <> Some (File data))
  /\ exit_status run.1 = 1 /\ saved run.2 = [].
Proof.
  intros run.
  assert (forall data,
            nodes (boot fs_empty) !! resolve (Path "nope.png") <> Some (File data))
    as Hnone by (intros data; vm_compute; discriminate).
  split; [exact Hnone |].
  destruct (missing_source_exits_1 (boot fs_empty) "resize-logo.py" "nope.png"
              ["newdir"] Hnone) as (Hexit & Hsaved & _).
  split; [exact Hexit | exact Hsaved].
Defined.

End Witnesses.


(** ** The effects a run is made of *)

Section Effects.
Context {pf : Platform}.
Import Pillow Os Resizer.

Lemma keeps_same {A} J (m : M A) : (forall w, (m w).2 = w) -> keeps J m.
Proof. intros Hm w HJ. by rewrite Hm. Qed.

Lemma exists_same p w : (exists_ p w).2 = w.
Proof. reflexivity. Qed.

Lemma Image_open_same p w : (Image_open p w).2 = w.
Proof.
  unfold Image_open.
  destruct (nodes w !! resolve p) as [[| [fmt frames |]] |]; try done.
  by destruct (largest_frame frames).
Qed.

(** [resize_logo] changes the state through [mkdir], [print] and
    [write_file] only: what these three keep, the run keeps. *)
Lemma resize_logo_keeps J (source_path output_dir : string) :
  keeps J (mkdir (Path output_dir)) ->
  (forall s, keeps J (print s)) ->
  (forall p data, keeps J (write_file p data)) ->
  keeps J (resize_logo source_path output_dir).
Proof.
  intros Hmk Hpr Hwr. unfold resize_logo.
  apply keeps_bind; [exact Hmk | intros _].
  apply keeps_bind; [apply keeps_same, exists_same | intros found].
  apply keeps_bind.
  { destruct found; simpl; [apply keeps_ret |].
    apply keeps_bind; [apply Hpr | intros _; apply keeps_lift]. }
  intros _. apply keeps_bind; [apply keeps_same, Image_open_same | intros img0].
  cbv zeta.
  generalize (if decide (mode img0 = "RGBA") then img0 else convert img0 "RGBA").
  clear img0. intros img.
  do 3 (apply keeps_bind; [apply Hpr | intros _]).
  apply keeps_bind.
  { apply keeps_for_each. intros [filename size] _. unfold emit_variant.
    destruct (decide (resolve _ = _)); [apply Hpr |].
    apply keeps_lift_bind. intros canvas _.
    apply keeps_bind; [apply Hwr | intros _; apply Hpr]. }
  intros _. apply keeps_lift_bind. intros ico_images _.
  apply keeps_index_bind. intros first _.
  apply keeps_bind.
  { unfold save_ico. apply keeps_lift_bind. intros frames _. apply Hwr. }
  intros _. apply keeps_bind; [apply Hpr | intros _].
  apply keeps_lift_bind. intros og_logo _.
  apply keeps_bind; [apply Hwr | intros _].
  do 2 (apply keeps_bind; [apply Hpr | intros _]). apply Hpr.
Qed.

(** [main] adds nothing but the choice of the arguments. *)
Lemma main_keeps J (argv : list string) :
  (forall output_dir, keeps J (mkdir (Path output_dir))) ->
  (forall s, keeps J (print s)) ->
  (forall p data, keeps J (write_file p data)) ->
  keeps J (main argv).
Proof.
  intros Hmk Hpr Hwr. unfold main.
  destruct (length argv <? 2)%nat.
  { apply keeps_bind; [apply Hpr | intros _; apply keeps_lift]. }
  apply keeps_index_bind. intros source _.
  apply keeps_bind.
  { destruct (2 <? length argv)%nat; [| apply keeps_ret].
    unfold index. destruct (argv !! 2%nat); [apply keeps_ret | apply keeps_lift]. }
  intros output_dir. by apply resize_logo_keeps.
Qed.

(** *** The three invariants *)

Lemma saved_paths_write p data w :
  saved_paths (write_file p data w).2 = saved_paths w
  \/ (saved_paths (write_file p data w).2 = saved_paths w ++ [p]
      /\ nodes (write_file p data w).2 = <[resolve p := File data]> (nodes w)
      /\ nodes w !! resolve p <> Some Dir).
Proof.
  unfold write_file, saved_paths.
  destruct (nodes w !! resolve p) as [[| d] |] eqn:E; cbn [snd saved nodes];
    [by left | right.. ]; rewrite fmap_app; by repeat split.
Qed.

Lemma write_file_unchanged p data w :
  saved_paths (write_file p data w).2 = saved_paths w ->
  nodes (write_file p data w).2 = nodes w.
Proof.
  unfold write_file, saved_paths.
  destruct (nodes w !! resolve p) as [[| d] |]; cbn [snd saved nodes];
    [done | |]; rewrite fmap_app; intros Heq;
    apply (f_equal length) in Heq; rewrite length_app in Heq; simpl in Heq; lia.
Qed.

Lemma touched_print fs chain s : keeps (touched fs chain) (print s).
Proof. by intros w HJ. Qed.

Lemma touched_mkdir fs output :
  keeps (touched fs (chain_of output)) (mkdir output).
Proof.
  intros w HJ q.
  destruct (mkdir_effect output w) as (Hsaved & _ & Hnodes).
  unfold saved_paths. rewrite Hsaved.
  destruct (Hnodes q) as [-> | (Hnone & Hdir & Hin)]; [apply HJ |].
  destruct (HJ q) as [Hsame | [(_ & Hd & _) | Hs]].
  - right. left. rewrite <- Hsame. by repeat split.
  - congruence.
  - by right; right.
Qed.

Lemma touched_write fs chain p data : keeps (touched fs chain) (write_file p data).
Proof.
  intros w HJ q.
  destruct (saved_paths_write p data w) as [Hs | (Hs & Hn & _)].
  - rewrite Hs, (write_file_unchanged _ _ _ Hs). apply HJ.
  - rewrite Hs, Hn, fmap_app.
    destruct (decide (resolve p = q)) as [<- | Hne].
    + right. right. apply elem_of_app. right. by left.
    + rewrite lookup_insert_ne by done.
      destruct (HJ q) as [? | [? | ?]]; [by left | by right; left |].
      right. right. apply elem_of_app. by left.
Qed.

Lemma files_print s : keeps saved_are_files (print s).
Proof. by intros w HJ. Qed.

Lemma files_mkdir output : keeps saved_are_files (mkdir output).
Proof.
  intros w HJ p Hp.
  destruct (mkdir_effect output w) as (Hsaved & _ & Hnodes).
  unfold saved_paths in Hp. rewrite Hsaved in Hp. specialize (HJ p Hp).
  destruct (Hnodes (resolve p)) as [-> | (Hnone & _ & _)]; [done |].
  by rewrite Hnone in HJ.
Qed.

Lemma files_write p data : keeps saved_are_files (write_file p data).
Proof.
  intros w HJ p' Hp'.
  destruct (saved_paths_write p data w) as [Hs | (Hs & Hn & _)].
  - rewrite (write_file_unchanged _ _ _ Hs). rewrite Hs in Hp'. by apply HJ.
  - rewrite Hn. rewrite Hs in Hp'.
    destruct (decide (resolve p = resolve p')) as [<- | Hne].
    + by rewrite lookup_insert_eq.
    + rewrite lookup_insert_ne by done.
      apply elem_of_app in Hp' as [Hold | Hnew]; [by apply HJ |].
      apply list_elem_of_singleton in Hnew. by subst.
Qed.

Lemma kinds_print fs s : keeps (kinds_kept fs) (print s).
Proof. by intros w HJ. Qed.

Lemma kinds_mkdir fs output : keeps (kinds_kept fs) (mkdir output).
Proof.
  intros w HJ q.
  destruct (mkdir_effect output w) as (_ & _ & Hnodes).
  destruct (HJ q) as [Hf Hd].
  destruct (Hnodes q) as [-> | (Hnone & _ & _)]; [done |].
  split; intros Hq.
  - specialize (Hf Hq). by rewrite Hnone in Hf.
  - specialize (Hd Hq). congruence.
Qed.

Lemma kinds_write fs p data : keeps (kinds_kept fs) (write_file p data).
Proof.
  intros w HJ q.
  destruct (saved_paths_write p data w) as [Hs | (_ & Hn & Hnodir)].
  - rewrite (write_file_unchanged _ _ _ Hs). apply HJ.
  - rewrite Hn. destruct (HJ q) as [Hf Hd].
    destruct (decide (resolve p = q)) as [<- | Hne].
    + rewrite lookup_insert_eq. split; [done |].
      intros Hq. by apply Hd in Hq.
    + by rewrite lookup_insert_ne.
Qed.

End Effects.

(** ** What a run leaves alone *)

Section Frame.
Context {pf : Platform}.
Import Pillow Os Resizer.

Lemma emitted_name (source output : PurePath) (e : PurePath * FileData) :
  emitted source output e ->
  exists name, name ∈ output_names /\ e.1 = Div output name.
Proof.
  intros [img filename size canvas Hin _ _ | img ico_images first frames _ _ _
         | img og_logo _]; cbn [fst]; eexists; (split; [| reflexivity]);
    unfold output_names; apply elem_of_app.
  - left. apply list_elem_of_fmap. by exists (filename, size).
  - right. left.
  - right. right. left.
Qed.

Lemma boot_touched fs chain : touched fs chain (boot fs).
Proof. intros q. by left. Qed.

Lemma run_touched (fs : gmap string Node) (source_path output_dir : string) :
  touched fs (chain_of (Path output_dir))
    (resize_logo source_path output_dir (boot fs)).2.
Proof.
  apply resize_logo_keeps;
    [apply touched_mkdir | intros; apply touched_print
     | intros; apply touched_write | apply boot_touched].
Qed.

(** X1. However the run ends, no PNG of the [sizes] table is saved at a
    path that resolves to the source. *)
Theorem variant_never_saved_over_source (fs : gmap string Node)
    (source_path output_dir name : string) (size : Z * Z) (data : FileData) :
  (name, size) ∈ sizes ->
  (Div (Path output_dir) name, data)
    ∈ saved (resize_logo source_path output_dir (boot fs)).2 ->
  resolve (Div (Path output_dir) name) <> resolve (Path source_path).
Proof.
  intros Hin Hsaved.
  pose proof (saved_emitted fs source_path output_dir) as Hall.
  rewrite Forall_forall in Hall. specialize (Hall _ Hsaved).
  inversion Hall as [img filename size' canvas _ Hne _
                    | img ico_images first frames _ _ _
                    | img og_logo _]; subst.
  - exact Hne.
  - by apply sizes_not_ico in Hin.
  - by apply sizes_not_og in Hin.
Qed.

(** X2. However the run ends, the file tree is as before at every path
    that is neither the output directory or one of its ancestors nor the
    resolved path of one of the nine output names. *)
Theorem run_touches_outputs_only (fs : gmap string Node)
    (source_path output_dir q : string) :
  q ∉ chain_of (Path output_dir) ->
  (forall name, name ∈ output_names -> q <> resolve (Div (Path output_dir) name)) ->
  nodes (resize_logo source_path output_dir (boot fs)).2 !! q = fs !! q.
Proof.
  intros Hchain Hnames.
  destruct (run_touched fs source_path output_dir q)
    as [Hsame | [(_ & _ & Hin) | Hs]]; [exact Hsame | done |].
  apply list_elem_of_fmap in Hs as (p & -> & Hp).
  unfold saved_paths in Hp. apply list_elem_of_fmap in Hp as (e & -> & He).
  pose proof (saved_emitted fs source_path output_dir) as Hall.
  rewrite Forall_forall in Hall.
  destruct (emitted_name _ _ _ (Hall _ He)) as (name & Hname & Hpath).
  rewrite Hpath in Hnames. by destruct (Hnames name Hname).
Qed.

(** X3. However the run ends, the source file holds what it held before,
    unless its resolved path is that of [favicon.ico] or of [og-image.png]
    in the output directory. *)
Theorem source_kept_unless_aliased (fs : gmap string Node)
    (source_path output_dir : string) (data : FileData) :
  fs !! resolve (Path source_path) = Some (File data) ->
  resolve (Div (Path output_dir) "favicon.ico") <> resolve (Path source_path) ->
  resolve (Div (Path output_dir) "og-image.png") <> resolve (Path source_path) ->
  nodes (resize_logo source_path output_dir (boot fs)).2 !! resolve (Path source_path)
  = Some (File data).
Proof.
  intros Hfile Hico Hog.
  destruct (run_touched fs source_path output_dir (resolve (Path source_path)))
    as [Hsame | [(Hnone & _ & _) | Hs]]; [by rewrite Hsame | congruence |].
  apply list_elem_of_fmap in Hs as (p & Hq & Hp).
  unfold saved_paths in Hp. apply list_elem_of_fmap in Hp as (e & -> & He).
  pose proof (saved_emitted fs source_path output_dir) as Hall.
  rewrite Forall_forall in Hall. specialize (Hall _ He).
  inversion Hall as [img filename size' canvas _ Hne _
                    | img ico_images first frames _ _ _
                    | img og_logo _]; subst; cbn [fst] in Hq; congruence.
Qed.

Lemma boot_kinds fs : kinds_kept fs (boot fs).
Proof. by intros q. Qed.

(** X4. Whatever the arguments and however the run ends, nothing is
    removed and nothing changes its kind: where there was a file there is
    a file, where there was a directory there is a directory. *)
Theorem nothing_removed (fs : gmap string Node) (argv : list string) (q : string) :
  fs !! q <> None ->
  nodes (main argv (boot fs)).2 !! q <> None
  /\ is_file (nodes (main argv (boot fs)).2 !! q) = is_file (fs !! q).
Proof.
  intros Hsome.
  assert (kinds_kept fs (main argv (boot fs)).2) as Hk.
  { apply main_keeps;
      [intros; apply kinds_mkdir | intros; apply kinds_print
       | intros; apply kinds_write | apply boot_kinds]. }
  destruct (Hk q) as [Hf Hd].
  destruct (fs !! q) as [[| data] |] eqn:E; [| | done].
  - rewrite Hd by done. done.
  - specialize (Hf eq_refl).
    destruct (nodes (main argv (boot fs)).2 !! q) as [[| data'] |]; done.
Qed.

End Frame.

(** ** How a run ends *)

Section Endings.
Context {pf : Platform}.
Import Pillow Os Resizer.

Lemma exits_bind {A B} (m : M A) (k : A -> M B) :
  exits_with_1 m -> (forall a, exits_with_1 (k a)) -> exits_with_1 (m ≫= k).
Proof.
  intros Hm Hk w c. rewrite bind_run. specialize (Hm w).
  destruct (m w) as [[a | c' | e] w1]; cbn [fst] in *;
    [apply Hk | intros [= <-]; by apply Hm | done].
Qed.

Lemma exits_never {A} (m : M A) :
  (forall w c, (m w).1 <> SysExit c) -> exits_with_1 m.
Proof. intros Hm w c Hc. by destruct (Hm w c). Qed.

Lemma print_no_exit s w c : (print s w).1 <> SysExit c.
Proof. done. Qed.

Lemma exists_no_exit p w c : (exists_ p w).1 <> SysExit c.
Proof. done. Qed.

Lemma Image_open_no_exit p w c : (Image_open p w).1 <> SysExit c.
Proof.
  unfold Image_open.
  destruct (nodes w !! resolve p) as [[| [fmt frames |]] |]; try done.
  by destruct (largest_frame frames).
Qed.

Lemma write_file_no_exit p data w c : (write_file p data w).1 <> SysExit c.
Proof. unfold write_file. by destruct (nodes w !! resolve p) as [[| d] |]. Qed.

Lemma index_no_exit {A} (l : list A) i w c : (index l i w).1 <> SysExit c.
Proof. unfold index. by destruct (l !! i). Qed.

Lemma thumbnail_no_exit im size c : thumbnail im size <> SysExit c.
Proof.
  unfold thumbnail. destruct (_ && _); [done |]. destruct (_ || _); [done |].
  destruct (thumbnail_size _ _ _); [| done]. by destruct (decide _).
Qed.

Lemma fit_and_center_no_exit img size c : fit_and_center img size <> SysExit c.
Proof.
  unfold fit_and_center, resized. pose proof (thumbnail_no_exit (copy img) size c).
  by destruct (thumbnail (copy img) size).
Qed.

Lemma collect_no_exit {A B} (f : A -> Result B) (l : list A) c :
  (forall a, f a <> SysExit c) -> collect f l <> SysExit c.
Proof.
  intros Hf. induction l as [| a l IH]; [done |]. simpl.
  specialize (Hf a).
  destruct (f a); simpl; [| intros [= ->]; by destruct Hf | done].
  by destruct (collect f l).
Qed.

Lemma ico_frames_for_no_exit provided_ims fallback wd ht sizes c :
  ico_frames_for provided_ims fallback wd ht sizes <> SysExit c.
Proof.
  induction sizes as [| size l IH]; [done |]. cbn [ico_frames_for].
  destruct (_ || _); [exact IH |].
  pose proof (thumbnail_no_exit (copy fallback) size c) as Ht.
  destruct (find _ provided_ims); cbn [rbind].
  - by destruct (ico_frames_for _ _ _ _ l).
  - destruct (thumbnail (copy fallback) size); cbn [rbind];
      [| intros [= ->]; by destruct Ht | done].
    by destruct (ico_frames_for _ _ _ _ l).
Qed.

Lemma ico_frames_no_exit im sizes append_images c :
  ico_frames im sizes append_images <> SysExit c.
Proof. apply ico_frames_for_no_exit. Qed.

Lemma exits_lift_bind {A B} (r : Result A) (k : A -> M B) :
  (forall c, r <> SysExit c) -> (forall a, exits_with_1 (k a)) ->
  exits_with_1 (lift r ≫= k).
Proof.
  intros Hr Hk. apply exits_bind; [| exact Hk].
  apply exits_never. intros w c. apply Hr.
Qed.

Lemma resize_logo_exits (source_path output_dir : string) :
  exits_with_1 (resize_logo source_path output_dir).
Proof.
  unfold resize_logo.
  apply exits_bind; [apply exits_never, mkdir_no_exit | intros _].
  apply exits_bind; [apply exits_never, exists_no_exit | intros found].
  apply exits_bind.
  { destruct found; simpl; [by apply exits_never |].
    apply exits_bind; [apply exits_never, print_no_exit | intros _].
    intros w c [= <-]. reflexivity. }
  intros _. apply exits_bind; [apply exits_never, Image_open_no_exit | intros img0].
  cbv zeta.
  generalize (if decide (mode img0 = "RGBA") then img0 else convert img0 "RGBA").
  clear img0. intros img.
  do 3 (apply exits_bind; [apply exits_never, print_no_exit | intros _]).
  apply exits_bind.
  { generalize sizes. intros l. induction l as [| [filename size] l IH]; simpl.
    - by apply exits_never.
    - apply exits_bind; [| intros _; exact IH].
      destruct (decide (resolve _ = _)); [apply exits_never, print_no_exit |].
      apply exits_lift_bind; [intros c; apply fit_and_center_no_exit |].
      intros canvas.
      apply exits_bind; [apply exits_never, write_file_no_exit | intros _].
      apply exits_never, print_no_exit. }
  intros _.
  apply exits_lift_bind;
    [intros c; apply collect_no_exit; intros a; apply fit_and_center_no_exit |].
  intros ico_images.
  apply exits_bind; [apply exits_never, index_no_exit | intros first].
  apply exits_bind.
  { unfold save_ico.
    apply exits_lift_bind; [intros c; apply ico_frames_no_exit |].
    intros frames. apply exits_never, write_file_no_exit. }
  intros _. apply exits_bind; [apply exits_never, print_no_exit | intros _].
  apply exits_lift_bind; [intros c; apply thumbnail_no_exit |]. intros og_logo.
  apply exits_bind; [apply exits_never, write_file_no_exit | intros _].
  do 2 (apply exits_bind; [apply exits_never, print_no_exit | intros _]).
  apply exits_never, print_no_exit.
Qed.

(** X5. Whatever the arguments and the file tree, the process ends with
    status 0 or 1. *)
Theorem exit_status_0_or_1 (argv : list string) (w : World) :
  exit_status (main argv w).1 = 0 \/ exit_status (main argv w).1 = 1.
Proof.
  assert (exits_with_1 (main argv)) as Hex.
  { unfold main. destruct (length argv <? 2)%nat.
    - apply exits_bind; [apply exits_never, print_no_exit | intros _].
      intros w' c [= <-]. reflexivity.
    - apply exits_bind; [apply exits_never, index_no_exit | intros source].
      apply exits_bind; [| intros output_dir; apply resize_logo_exits].
      destruct (2 <? length argv)%nat;
        [apply exits_never, index_no_exit | by apply exits_never]. }
  specialize (Hex w).
  destruct (main argv w).1 as [[] | c | e]; cbn [exit_status];
    [by left | right; by apply Hex | by right].
Qed.

(** X6. Without a source argument the usage text is printed, the process
    ends with status 1, and neither the file tree nor the log changes. *)
Theorem usage_without_source (argv : list string) (w : World) :
  (length argv < 2)%nat ->
  main argv w
  = (SysExit 1,
     {| nodes := nodes w; stdout := stdout w ++ [doc]; saved := saved w |}).
Proof.
  intros Hlen. unfold main.
  destruct (Nat.ltb_spec (length argv) 2) as [_ | Hge]; [reflexivity | lia].
Qed.

(** X7. When a file is at the source path but no image can be decoded
    from it, the process ends with status 1 and nothing is saved. *)
Theorem undecodable_source_exits_1 (w : World) (source_path output_dir : string)
    (data : FileData) :
  nodes w !! resolve (Path source_path) = Some (File data) ->
  (forall im, ~ decodes_to w (Path source_path) im) ->
  exit_status (resize_logo source_path output_dir w).1 = 1
  /\ saved (resize_logo source_path output_dir w).2 = saved w.
Proof.
  intros Hfile Hundec.
  generalize (surjective_pairing (resize_logo source_path output_dir w)).
  generalize (resize_logo source_path output_dir w).1.
  generalize (resize_logo source_path output_dir w).2.
  intros w' r Hrun. unfold resize_logo in Hrun.
  destruct (mkdir_effect (Path output_dir) w) as (Hsaved & _ & _).
  pose proof (mkdir_no_exit (Path output_dir) w) as Hnoexit.
  rewrite bind_run in Hrun.
  destruct (mkdir (Path output_dir) w) as [[[] | c | e] w1] eqn:Hmk;
    cbn [fst snd] in *; [| by destruct (Hnoexit c) | by simplify_eq].
  pose proof (mkdir_keeps_files _ _ _ _ _ Hmk Hfile) as Hfile1.
  rewrite bind_run in Hrun. unfold exists_ at 1 in Hrun.
  rewrite Hfile1 in Hrun. rewrite bool_decide_eq_true_2 in Hrun by eauto.
  cbn [negb] in Hrun. rewrite bind_run in Hrun. cbn [mret M_ret] in Hrun.
  rewrite bind_run in Hrun. unfold Image_open at 1 in Hrun.
  rewrite Hfile1 in Hrun.
  destruct data as [fmt frames |]; [| by simplify_eq].
  destruct (largest_frame frames) as [im |] eqn:Hl; [| by simplify_eq].
  destruct (Hundec im). by exists fmt, frames.
Qed.

(** *** Reading a normal end backwards *)

Lemma bind_ok_inv {A B} (m : M A) (k : A -> M B) (w w' : World) (b : B) :
  (m ≫= k) w = (Ok b, w') ->
  exists a w1, m w = (Ok a, w1) /\ k a w1 = (Ok b, w').
Proof.
  rewrite bind_run. destruct (m w) as [[a | c | e] w1]; [| done..].
  intros Hk. by exists a, w1.
Qed.

Lemma print_ok_inv s w w' :
  print s w = (Ok tt, w') ->
  saved_paths w' = saved_paths w /\ stdout w' = stdout w ++ [s].
Proof. by intros [= <-]. Qed.

Lemma write_file_ok_inv p data w w' :
  write_file p data w = (Ok tt, w') ->
  saved_paths w' = saved_paths w ++ [p] /\ stdout w' = stdout w.
Proof.
  unfold write_file, saved_paths.
  destruct (nodes w !! resolve p) as [[| d] |]; [done | |];
    intros [= <-]; cbn [saved stdout]; by rewrite fmap_app.
Qed.

Lemma lift_ok_inv {A} (r : Result A) w w' a :
  lift r w = (Ok a, w') -> r = Ok a /\ w' = w.
Proof. unfold lift. by intros [= -> ->]. Qed.

Lemma for_each_ok_inv (img : Image) (source output : PurePath)
    (l : list (string * (Z * Z))) (w w' : World) :
  for_each l (emit_variant img source output) w = (Ok tt, w') ->
  saved_paths w'
  = saved_paths w
    ++ (Div output
          <$> filter (fun n => resolve (Div output n) <> resolve source) (l.*1)).
Proof.
  revert w. induction l as [| [filename size] l IH]; intros w.
  - intros [= <-]. by rewrite app_nil_r.
  - simpl. intros ([] & w1 & Hbody & Hrest)%bind_ok_inv.
    apply IH in Hrest. rewrite Hrest. rewrite filter_cons.
    destruct (decide (resolve _ = _)) as [E | NE].
    + apply print_ok_inv in Hbody as [-> _].
      by rewrite decide_False by (by intros ?).
    + rewrite decide_True by done.
      apply bind_ok_inv in Hbody as (canvas & w2 & Hfit & Hbody).
      apply lift_ok_inv in Hfit as [_ ->].
      apply bind_ok_inv in Hbody as ([] & w3 & Hwr & Hpr).
      apply write_file_ok_inv in Hwr as [Hwr _].
      apply print_ok_inv in Hpr as [-> _].
      rewrite Hwr, fmap_cons, <- app_assoc. done.
Qed.

(** X8. Whenever [resize_logo] ends normally, the saves it logged are
    exactly, in this order, the sized variants that do not resolve to the
    source, [favicon.ico] and [og-image.png]; and the last line printed is
    [Done!]. *)
Theorem normal_end_saved_all (fs : gmap string Node)
    (source_path output_dir : string) (w' : World) :
  let source := Path source_path in
  let output := Path output_dir in
  resize_logo source_path output_dir (boot fs) = (Ok tt, w') ->
  saved_paths w'
  = (Div output
       <$> filter (fun n => resolve (Div output n) <> resolve source) (sizes.*1))
    ++ [Div output "favicon.ico"; Div output "og-image.png"]
  /\ last (stdout w') = Some "Done!".
Proof.
  intros source output. unfold resize_logo. fold source output.
  intros ([] & w1 & Hmk & Hrun)%bind_ok_inv.
  apply mkdir_keeps_log in Hmk as [Hs1 _].
  apply bind_ok_inv in Hrun as (found & w2 & Hex & Hrun).
  injection Hex as _ <-.
  apply bind_ok_inv in Hrun as ([] & w3 & Hfound & Hrun).
  assert (saved_paths w3 = []) as Hs3.
  { destruct (negb _).
    - apply bind_ok_inv in Hfound as ([] & w4 & _ & Hexit). done.
    - injection Hfound as <-. unfold saved_paths. by rewrite Hs1. }
  clear Hfound.
  apply bind_ok_inv in Hrun as (img0 & w4 & Hopen & Hrun).
  assert (w4 = w3) as -> by (rewrite <- (Image_open_same source w3); by rewrite Hopen).
  cbv zeta in Hrun. revert Hrun.
  generalize (if decide (mode img0 = "RGBA") then img0 else convert img0 "RGBA").
  intros img Hrun.
  apply bind_ok_inv in Hrun as ([] & w5 & [Hp5 _]%print_ok_inv & Hrun).
  apply bind_ok_inv in Hrun as ([] & w6 & [Hp6 _]%print_ok_inv & Hrun).
  apply bind_ok_inv in Hrun as ([] & w7 & [Hp7 _]%print_ok_inv & Hrun).
  apply bind_ok_inv in Hrun as ([] & w8 & Hloop%for_each_ok_inv & Hrun).
  apply bind_ok_inv in Hrun as (ico_images & w9 & [_ ->]%lift_ok_inv & Hrun).
  apply bind_ok_inv in Hrun as (first & w10 & Hidx & Hrun).
  assert (w10 = w8) as ->.
  { unfold index in Hidx. destruct (ico_images !! 0%nat); [| done].
    by injection Hidx as _ <-. }
  apply bind_ok_inv in Hrun as ([] & w11 & Hico & Hrun).
  unfold save_ico in Hico.
  apply bind_ok_inv in Hico as (frames & w12 & [_ ->]%lift_ok_inv & Hico).
  apply write_file_ok_inv in Hico as [Hico _].
  apply bind_ok_inv in Hrun as ([] & w13 & [Hp13 _]%print_ok_inv & Hrun).
  apply bind_ok_inv in Hrun as (og_logo & w14 & [_ ->]%lift_ok_inv & Hrun).
  apply bind_ok_inv in Hrun as ([] & w15 & Hog & Hrun).
  apply write_file_ok_inv in Hog as [Hog _].
  apply bind_ok_inv in Hrun as ([] & w16 & [Hp16 _]%print_ok_inv & Hrun).
  apply bind_ok_inv in Hrun as ([] & w17 & [Hp17 _]%print_ok_inv & Hrun).
  apply print_ok_inv in Hrun as [Hp18 Hout].
  split.
  - rewrite Hp18, Hp17, Hp16, Hog, Hp13, Hico, Hloop, Hp7, Hp6, Hp5, Hs3.
    by rewrite app_nil_l, <- app_assoc.
  - rewrite Hout. apply last_snoc.
Qed.

End Endings.

(** ** Shapes and pixels *)

Section Shapes.
Context {pf : Platform}.
Import Pillow Os Resizer.

Lemma Qdiv_self (z : Z) : z <> 0 -> (inject_Z z / inject_Z z == 1)%Q.
Proof. intros Hz. apply Qmult_inv_r. by apply inject_Z_nonzero. Qed.

(** A square image that does not fit a square box is scaled to the box. *)
Lemma thumbnail_size_square (w x : Z) :
  0 < x -> x < w -> thumbnail_size w w (x, x) = Some (x, x).
Proof.
  intros Hx Hw. unfold thumbnail_size.
  destruct ((w <=? x) && (w <=? x)) eqn:E; [apply fits_true in E; lia |].
  pose proof (Qdiv_self w ltac:(lia)) as Ha.
  pose proof (Qdiv_self x ltac:(lia)) as Hb.
  destruct (Qle_bool _ _) eqn:Hle.
  - f_equal. f_equal.
    assert (inject_Z x * (inject_Z w / inject_Z w) == inject_Z x)%Q as Hn.
    { rewrite Ha. apply Qmult_1_r. }
    match goal with |- round_aspect ?q ?k = _ =>
      destruct (round_aspect_cases q k) as [-> | ->] end.
    + rewrite Hn, Qfloor_Z. lia.
    + rewrite Hn, Qceiling_Z. lia.
  - apply not_true_iff_false in Hle. destruct Hle.
    apply Qle_bool_iff. rewrite Ha, Hb. apply Qle_refl.
Qed.

(** X9. A square source scaled for a square box stays square, and is
    pasted at equal offsets in x and y. *)
Theorem square_logo_centred (img : Image) (size : Z * Z) (r : Image) :
  width img = height img -> size.1 = size.2 -> 0 < size.1 ->
  resized img size = Ok r ->
  width r = height r /\ (offset size r).1 = (offset size r).2.
Proof.
  intros Hsq Hbox Hpos Hr. destruct size as [x y]. cbn [fst snd] in *. subst y.
  assert (width r = height r) as Hrsq.
  { destruct (thumbnail_inv _ _ _ Hr) as [(_ & _ & ->) | (Hno & _ & _ & Hs)];
      [exact Hsq |].
    unfold copy in *. cbn [fst snd] in Hno. rewrite Hsq in Hs.
    rewrite thumbnail_size_square in Hs by lia.
    by injection Hs as <- <-. }
  split; [exact Hrsq |]. unfold offset. cbn [fst snd]. by rewrite Hrsq.
Qed.

Lemma og_outside_centre (w h i j : Z) :
  w <= 300 -> h <= 300 ->
  ~ (450 <= i < 750 /\ 165 <= j < 465) ->
  in_box ((1200 - w) `div` 2) ((630 - h) `div` 2) w h i j = false.
Proof.
  intros Hw Hh Hout. unfold in_box.
  pose proof (half_bounds (1200 - w)). pose proof (half_bounds (630 - h)).
  apply not_true_iff_false. intros Hin.
  apply andb_true_iff in Hin as [Hin Hj2]. apply andb_true_iff in Hin as [Hin Hj1].
  apply andb_true_iff in Hin as [Hi1 Hi2].
  apply Z.leb_le in Hi1, Hj1. apply Z.ltb_lt in Hi2, Hj2. lia.
Qed.

(** X10. The image saved as [og-image.png] is white everywhere outside
    the central 300 by 300 square (columns 450 to 749, rows 165 to 464):
    the logo never reaches the margins of the banner. *)
Theorem banner_white_outside_centre (fs : gmap string Node)
    (source_path output_dir : string) (data : FileData) :
  (Div (Path output_dir) "og-image.png", data)
    ∈ saved (resize_logo source_path output_dir (boot fs)).2 ->
  exists im,
    data = ImageFile "PNG" [im]
    /\ forall i j, ~ (450 <= i < 750 /\ 165 <= j < 465) ->
         getpixel im i j = [255; 255; 255].
Proof.
  intros Hsaved.
  pose proof (saved_emitted fs source_path output_dir) as Hall.
  rewrite Forall_forall in Hall. specialize (Hall _ Hsaved).
  inversion Hall as [img filename size' canvas Hin' _ Hfit
                    | img ico_images first frames _ _ _
                    | img og_logo Hog]; subst.
  - by apply sizes_not_og in Hin'.
  - eexists. split; [reflexivity |]. intros i j Hout.
    apply thumbnail_bound in Hog as [Hw Hh]; [| done..]. simpl in Hw, Hh.
    cbn [getpixel og_banner convert paste new og_size fst snd width height mode].
    rewrite (og_outside_centre _ _ i j Hw Hh Hout). reflexivity.
Qed.

(** X11. The file saved as [favicon.ico] embeds one image, of 16 by 16:
    [save] is called on the 16x16 canvas and the ICO writer drops the
    requested sizes that are larger than that image. *)
Theorem favicon_ico_one_frame (fs : gmap string Node)
    (source_path output_dir : string) (data : FileData) :
  (Div (Path output_dir) "favicon.ico", data)
    ∈ saved (resize_logo source_path output_dir (boot fs)).2 ->
  exists c16, data = ImageFile "ICO" [c16] /\ im_size c16 = (16, 16).
Proof.
  intros Hsaved.
  pose proof (saved_emitted fs source_path output_dir) as Hall.
  rewrite Forall_forall in Hall. specialize (Hall _ Hsaved).
  inversion Hall as [img filename size' canvas Hin' _ Hfit
                    | img ico_images first frames Hcol Hfirst Hframes
                    | img og_logo Hog]; subst.
  - by apply sizes_not_ico in Hin'.
  - unfold ico_sizes in Hcol. cbn [collect] in Hcol.
    destruct (fit_and_center img (16, 16)) as [c16 | |] eqn:H16; [| done..].
    destruct (fit_and_center img (32, 32)) as [c32 | |] eqn:H32; [| done..].
    destruct (fit_and_center img (48, 48)) as [c48 | |] eqn:H48; [| done..].
    cbn [rbind] in Hcol. injection Hcol as <-.
    injection Hfirst as <-. cbn [drop] in Hframes.
    apply fit_and_center_inv in H16 as (r16 & _ & ->).
    apply fit_and_center_inv in H32 as (r32 & _ & ->).
    apply fit_and_center_inv in H48 as (r48 & _ & ->).
    injection Hframes as <-. eexists. split; reflexivity.
Qed.

(** X12. A logo that already fits the box is not resampled: its pixels
    appear unchanged on the canvas, at the centring offset, and every other
    pixel of the canvas is transparent. *)
Theorem small_logo_pasted_unscaled (img : Image) (size : Z * Z) :
  width img <= size.1 -> height img <= size.2 ->
  exists canvas,
    fit_and_center img size = Ok canvas
    /\ (forall i j, 0 <= i < width img -> 0 <= j < height img ->
          getpixel canvas ((offset size img).1 + i) ((offset size img).2 + j)
          = getpixel img i j)
    /\ (forall i j,
          ~ ((offset size img).1 <= i < (offset size img).1 + width img
             /\ (offset size img).2 <= j < (offset size img).2 + height img) ->
          getpixel canvas i j = [0; 0; 0; 0]).
Proof.
  intros Hw Hh. unfold fit_and_center, resized, copy.
  rewrite (thumbnail_fits img size Hw Hh). cbn [rbind].
  eexists. split; [reflexivity |].
  destruct (offset size img) as [x y]. cbn [fst snd paste getpixel new].
  split.
  - intros i j Hi Hj.
    replace (in_box x y (width img) (height img) (x + i) (y + j)) with true.
    + f_equal; lia.
    + symmetry. unfold in_box. repeat (apply andb_true_iff; split);
        first [apply Z.leb_le | apply Z.ltb_lt]; lia.
  - intros i j Hout.
    replace (in_box x y (width img) (height img) i j) with false; [done |].
    symmetry. apply not_true_iff_false. intros Hin. apply Hout.
    unfold in_box in Hin.
    apply andb_true_iff in Hin as [Hin Hj2]. apply andb_true_iff in Hin as [Hin Hj1].
    apply andb_true_iff in Hin as [Hi1 Hi2].
    apply Z.leb_le in Hi1, Hj1. apply Z.ltb_lt in Hi2, Hj2. lia.
Qed.

End Shapes.

(** ** One run after another *)

Section Again.
Context {pf : Platform}.
Import Pillow Os Resizer.

(** X13. When the output directory can be made and nothing is at the
    source path afterwards, the run prints the one line
    [Error: Source file not found: <source>] and leaves with
    [sys.exit(1)], with nothing changed but the directories just made. *)
Theorem missing_source_reported (w w1 : World) (source_path output_dir : string) :
  mkdir (Path output_dir) w = (Ok tt, w1) ->
  nodes w1 !! resolve (Path source_path) = None ->
  resize_logo source_path output_dir w
  = (SysExit 1,
     {| nodes := nodes w1;
        stdout := stdout w
                  ++ ["Error: Source file not found: "
                        +:+ path_str (Path source_path)];
        saved := saved w |}).
Proof.
  intros Hmk Hnone. destruct (mkdir_keeps_log _ _ _ Hmk) as [Hs Ho].
  unfold resize_logo. rewrite (bind_ok _ _ _ _ _ Hmk).
  erewrite bind_ok; cycle 1.
  { unfold exists_. rewrite Hnone. rewrite bool_decide_eq_false_2; [reflexivity |].
    by intros [? ?]. }
  cbn [negb]. rewrite !bind_run. unfold print, sys_exit, lift. cbn [fst snd].
  by rewrite Hs, Ho.
Qed.

Lemma lookup_mkdir_chain_in (chain : list string) (m : gmap string Node)
    (q : string) :
  q ∈ chain -> foldr (fun q m => <[q := Dir]> m) m chain !! q = Some Dir.
Proof.
  induction chain as [| c chain IH]; [by intros ?%elem_of_nil |].
  cbn [foldr]. destruct (decide (c = q)) as [-> | Hne].
  - intros _. apply lookup_insert_eq.
  - intros [? | Hin]%elem_of_cons; [congruence |].
    rewrite lookup_insert_ne by done. by apply IH.
Qed.

Lemma mkdir_ok_inv (p : PurePath) (w w1 : World) :
  mkdir p w = (Ok tt, w1) ->
  (forall q, q ∈ chain_of p ->
     is_file (nodes w !! q) = false /\ nodes w1 !! q = Some Dir)
  /\ (forall q, q ∉ chain_of p -> nodes w1 !! q = nodes w !! q).
Proof.
  unfold mkdir, chain_of.
  destruct (is_file (nodes w !! resolve p)) eqn:E1; [done |].
  destruct (existsb _ (parents (resolve p))) eqn:E2; [done |].
  intros [= <-]. cbn [nodes]. split.
  - intros q Hq. split.
    + apply elem_of_cons in Hq as [-> | Hin]; [done |].
      destruct (is_file (nodes w !! q)) eqn:Eq; [| done].
      assert (existsb (fun q => is_file (nodes w !! q)) (parents (resolve p)) = true);
        [| congruence].
      apply existsb_exists. exists q. split; [by apply list_elem_of_In | done].
    + by apply (lookup_mkdir_chain_in (resolve p :: parents (resolve p))).
  - intros q Hq. by apply (lookup_mkdir_chain (resolve p :: parents (resolve p))).
Qed.

Lemma mkdir_ok (p : PurePath) (w : World) :
  (forall q, q ∈ chain_of p -> is_file (nodes w !! q) = false) ->
  exists w1, mkdir p w = (Ok tt, w1).
Proof.
  intros Hchain. unfold mkdir.
  rewrite (Hchain (resolve p)) by left.
  destruct (existsb _ (parents (resolve p))) eqn:E2; [| by eexists].
  apply existsb_exists in E2 as (q & Hin & Hq).
  rewrite Hchain in Hq; [done |]. right. by apply list_elem_of_In.
Qed.

Lemma run_saved_are_files (fs : gmap string Node) (source_path output_dir : string) :
  saved_are_files (resize_logo source_path output_dir (boot fs)).2.
Proof.
  apply resize_logo_keeps;
    [apply files_mkdir | intros; apply files_print | intros; apply files_write |].
  by intros p Hp%elem_of_nil.
Qed.

Lemma saved_path_name (fs : gmap string Node) (source_path output_dir : string)
    (p : PurePath) :
  p ∈ saved_paths (resize_logo source_path output_dir (boot fs)).2 ->
  exists name, name ∈ output_names /\ p = Div (Path output_dir) name.
Proof.
  unfold saved_paths. intros (e & -> & He)%list_elem_of_fmap.
  pose proof (saved_emitted fs source_path output_dir) as Hall.
  rewrite Forall_forall in Hall. apply (emitted_name _ _ _ (Hall _ He)).
Qed.

(** After a completed run the output directory is usable again. *)
Lemma usable_after_run (fs : gmap string Node) (source_path output_dir : string)
    (w1 : World) :
  usable (boot fs) (Path output_dir) ->
  resize_logo source_path output_dir (boot fs) = (Ok tt, w1) ->
  usable w1 (Path output_dir).
Proof.
  intros (wm & Hmk & Hfree) Hrun.
  destruct (mkdir_ok_inv _ _ _ Hmk) as [Hchain Hrest]. cbn [nodes boot] in *.
  pose proof (run_touched fs source_path output_dir) as Htouched.
  pose proof (run_saved_are_files fs source_path output_dir) as Hfiles.
  pose proof (saved_path_name fs source_path output_dir) as Hnames.
  rewrite Hrun in Htouched, Hfiles, Hnames. cbn [snd] in *.
  assert (forall name, name ∈ output_names ->
            resolve (Div (Path output_dir) name) ∉ chain_of (Path output_dir))
    as Hout.
  { intros name Hname Hin. apply (Hfree name Hname). by apply Hchain. }
  assert (forall q, q ∈ resolve <$> saved_paths w1 ->
            is_file (nodes w1 !! q) = true
            /\ exists name, name ∈ output_names
                 /\ q = resolve (Div (Path output_dir) name)) as Hlog.
  { intros q (p & -> & Hp)%list_elem_of_fmap. split; [by apply Hfiles |].
    destruct (Hnames p Hp) as (name & Hname & ->). by exists name. }
  destruct (mkdir_ok (Path output_dir) w1) as [w2 Hmk2].
  { intros q Hq.
    destruct (Htouched q) as [-> | [(_ & -> & _) | Hs]];
      [by apply Hchain | done |].
    destruct (Hlog q Hs) as (_ & name & Hname & ->). by destruct (Hout name Hname). }
  exists w2. split; [exact Hmk2 |]. intros name Hname.
  destruct (mkdir_ok_inv _ _ _ Hmk2) as [_ Hrest2].
  rewrite Hrest2 by (by apply Hout).
  destruct (Htouched (resolve (Div (Path output_dir) name)))
    as [Hsame | [(_ & _ & Hin) | Hs]].
  - rewrite Hsame, <- Hrest by (by apply Hout). by apply Hfree.
  - by destruct (Hout name Hname).
  - destruct (Hlog _ Hs) as (Hfile & _).
    intros Hdir. by rewrite Hdir in Hfile.
Qed.

(** X14. When a run completes and the source is not at the path of
    [favicon.ico] or [og-image.png], a second run on the resulting tree
    completes too and saves the same files again: the same paths with the
    same contents, in the same order. *)
Theorem second_run_saves_the_same (fs : gmap string Node)
    (source_path output_dir : string) (im0 : Image) :
  let source := Path source_path in
  let output := Path output_dir in
  decodes_to (boot fs) source im0 -> height im0 <> 0 ->
  usable (boot fs) output ->
  resolve (Div output "favicon.ico") <> resolve source ->
  resolve (Div output "og-image.png") <> resolve source ->
  exists w1 w2,
    resize_logo source_path output_dir (boot fs) = (Ok tt, w1)
    /\ resize_logo source_path output_dir w1 = (Ok tt, w2)
    /\ saved w2 = saved w1 ++ saved w1.
Proof.
  intros source output Hdec Hh Huse Hico Hog.
  destruct (resize_logo_completes _ _ _ _ Hdec Hh Huse)
    as (w1 & c16 & c32 & c48 & og_logo & Hrun1 & Hcol1 & Hog1 & Hsaved1 & _).
  assert (decodes_to w1 source im0) as Hdec1.
  { destruct Hdec as (format & frames & Hnode & Hl). exists format, frames.
    split; [| exact Hl].
    pose proof (source_kept_unless_aliased fs source_path output_dir _
                  Hnode Hico Hog) as Hkept.
    by rewrite Hrun1 in Hkept. }
  pose proof (usable_after_run fs source_path output_dir w1 Huse Hrun1) as Huse1.
  destruct (resize_logo_completes _ _ _ _ Hdec1 Hh Huse1)
    as (w2 & c16' & c32' & c48' & og_logo' & Hrun2 & Hcol2 & Hog2 & Hsaved2 & _).
  exists w1, w2. split; [exact Hrun1 |]. split; [exact Hrun2 |].
  rewrite Hcol1 in Hcol2. injection Hcol2 as <- <- <-.
  rewrite Hog1 in Hog2. injection Hog2 as <-.
  rewrite Hsaved2. f_equal. rewrite Hsaved1. reflexivity.
Qed.

End Again.


(** ** The further theorems at concrete inputs *)

Section MoreWitnesses.
Import Pillow Os Resizer Demo.

Lemma run_on_logo_ends_normally :
  resize_logo "logo.png" "out" (boot fs_logo)
  = (Ok tt, (resize_logo "logo.png" "out" (boot fs_logo)).2).
Proof.
  rewrite (surjective_pairing (resize_logo "logo.png" "out" (boot fs_logo))) at 1.
  f_equal.
Qed.

Lemma variant_never_saved_over_source_witness :
  ("favicon-32x32.png", (32, 32)) ∈ sizes
  /\ resolve (Div (Path "out") "favicon-32x32.png") <> resolve (Path "logo.png").
Proof.
  assert (("favicon-32x32.png", (32, 32)) ∈ sizes) as Hin
    by (unfold sizes; right; left).
  split; [exact Hin |].
  apply (variant_never_saved_over_source fs_logo "logo.png" "out"
           "favicon-32x32.png" (32, 32) (saved_on_logo 1) Hin).
  apply (list_elem_of_lookup_2 _ 1%nat). reflexivity.
Defined.

Lemma logo_is_no_output_name (name : string) :
  name ∈ output_names -> "logo.png" <> resolve (Div (Path "out") name).
Proof.
  revert name. apply Forall_forall.
  unfold output_names. repeat constructor; by vm_compute.
Qed.

Lemma run_touches_outputs_only_witness :
  ("logo.png" ∉ chain_of (Path "out"))
  /\ nodes (resize_logo "logo.png" "out" (boot fs_logo)).2 !! "logo.png"
     = fs_logo !! "logo.png".
Proof.
  assert ("logo.png" ∉ chain_of (Path "out")) as Hchain.
  { intros Hin. apply elem_of_cons in Hin as [Heq | Hin]; [discriminate Heq |].
    by apply elem_of_nil in Hin. }
  split; [exact Hchain |].
  exact (run_touches_outputs_only fs_logo "logo.png" "out" "logo.png"
           Hchain logo_is_no_output_name).
Defined.

Lemma source_kept_unless_aliased_witness :
  fs_navbar_source !! resolve (Path "out/logo-64.png")
  = Some (File (ImageFile "PNG" [logo]))
  /\ nodes (resize_logo "out/logo-64.png" "out" (boot fs_navbar_source)).2
       !! resolve (Path "out/logo-64.png")
     = Some (File (ImageFile "PNG" [logo])).
Proof.
  split; [reflexivity |].
  apply (source_kept_unless_aliased fs_navbar_source "out/logo-64.png" "out");
    [reflexivity | discriminate | discriminate].
Defined.

Lemma nothing_removed_witness :
  let w' := (main ["resize-logo.py"; "logo.png"; "out"] (boot fs_logo)).2 in
  fs_logo !! "logo.png" <> None
  /\ nodes w' !! "logo.png" <> None
  /\ is_file (nodes w' !! "logo.png") = is_file (fs_logo !! "logo.png").
Proof.
  intros w'.
  assert (fs_logo !! "logo.png" <> None) as Hsome by (vm_compute; discriminate).
  split; [exact Hsome |].
  exact (nothing_removed fs_logo ["resize-logo.py"; "logo.png"; "out"]
           "logo.png" Hsome).
Defined.

Lemma usage_without_source_witness :
  (length ["resize-logo.py"] < 2)%nat
  /\ main ["resize-logo.py"] (boot fs_logo)
     = (SysExit 1, {| nodes := fs_logo; stdout := [doc]; saved := [] |}).
Proof.
  split; [simpl; lia |].
  apply (usage_without_source ["resize-logo.py"] (boot fs_logo)). simpl. lia.
Defined.

Lemma undecodable_source_exits_1_witness :
  nodes (boot fs_notes) !! resolve (Path "notes.txt") = Some (File OtherFile)
  /\ exit_status (resize_logo "notes.txt" "out" (boot fs_notes)).1 = 1
  /\ saved (resize_logo "notes.txt" "out" (boot fs_notes)).2 = [].
Proof.
  split; [reflexivity |].
  apply (undecodable_source_exits_1 (boot fs_notes) "notes.txt" "out" OtherFile);
    [reflexivity |].
  intros im (format & frames & Hnode & _). vm_compute in Hnode. discriminate.
Defined.

Lemma normal_end_saved_all_witness :
  let w' := (resize_logo "logo.png" "out" (boot fs_logo)).2 in
  resize_logo "logo.png" "out" (boot fs_logo) = (Ok tt, w')
  /\ length (saved_paths w') = 9%nat
  /\ last (stdout w') = Some "Done!".
Proof.
  intros w'. split; [exact run_on_logo_ends_normally |].
  destruct (normal_end_saved_all fs_logo "logo.png" "out" w'
              run_on_logo_ends_normally) as [Hpaths Hlast].
  split; [| exact Hlast]. rewrite Hpaths. reflexivity.
Defined.

Lemma square_logo_centred_witness :
  let r := resize logo (16, 16) in
  width logo = height logo
  /\ resized logo (16, 16) = Ok r
  /\ width r = height r
  /\ (offset (16, 16) r).1 = (offset (16, 16) r).2.
Proof.
  intros r. split; [reflexivity |]. split; [reflexivity |].
  apply (square_logo_centred logo (16, 16) r); reflexivity.
Defined.

Lemma banner_white_outside_centre_witness :
  exists im,
    saved_on_logo 8 = ImageFile "PNG" [im]
    /\ forall i j, ~ (450 <= i < 750 /\ 165 <= j < 465) ->
         getpixel im i j = [255; 255; 255].
Proof.
  apply (banner_white_outside_centre fs_logo "logo.png" "out" (saved_on_logo 8)).
  apply (list_elem_of_lookup_2 _ 8%nat). reflexivity.
Defined.

Lemma favicon_ico_one_frame_witness :
  exists c16, saved_on_logo 7 = ImageFile "ICO" [c16] /\ im_size c16 = (16, 16).
Proof.
  apply (favicon_ico_one_frame fs_logo "logo.png" "out" (saved_on_logo 7)).
  apply (list_elem_of_lookup_2 _ 7%nat). reflexivity.
Defined.

Lemma small_logo_pasted_unscaled_witness :
  width logo <= 180 /\ height logo <= 180
  /\ exists canvas,
       fit_and_center logo (180, 180) = Ok canvas
       /\ getpixel canvas (58 + 32) (58 + 32) = getpixel logo 32 32
       /\ getpixel canvas 0 0 = [0; 0; 0; 0].
Proof.
  assert (width logo <= 180) as Hw by (simpl; lia).
  assert (height logo <= 180) as Hh by (simpl; lia).
  split; [exact Hw |]. split; [exact Hh |].
  destruct (small_logo_pasted_unscaled logo (180, 180) Hw Hh)
    as (canvas & Hfit & Hin & Hout).
  exists canvas. split; [exact Hfit |]. split.
  - apply (Hin 32 32); simpl; lia.
  - apply (Hout 0 0). change (offset (180, 180) logo) with (58, 58). simpl. lia.
Defined.

Lemma missing_source_reported_witness :
  let w1 := (mkdir (Path "newdir") (boot fs_empty)).2 in
  mkdir (Path "newdir") (boot fs_empty) = (Ok tt, w1)
  /\ nodes w1 !! resolve (Path "nope.png") = None
  /\ resize_logo "nope.png" "newdir" (boot fs_empty)
     = (SysExit 1,
        {| nodes := nodes w1;
           stdout := ["Error: Source file not found: nope.png"];
           saved := [] |}).
Proof.
  intros w1.
  assert (mkdir (Path "newdir") (boot fs_empty) = (Ok tt, w1)) as Hmk
    by reflexivity.
  assert (nodes w1 !! resolve (Path "nope.png") = None) as Hnone
    by (vm_compute; reflexivity).
  split; [exact Hmk |]. split; [exact Hnone |].
  exact (missing_source_reported (boot fs_empty) w1 "nope.png" "newdir" Hmk Hnone).
Defined.

Lemma second_run_saves_the_same_witness :
  exists w1 w2,
    resize_logo "logo.png" "out" (boot fs_logo) = (Ok tt, w1)
    /\ resize_logo "logo.png" "out" w1 = (Ok tt, w2)
    /\ saved w2 = saved w1 ++ saved w1.
Proof.
  apply (second_run_saves_the_same fs_logo "logo.png" "out" logo
           logo_decodes ltac:(discriminate) out_usable_beside_logo);
    discriminate.
Defined.

End MoreWitnesses.
